(** * imgscaler: the asynchronous job layer and the max-pixel guard

    A shallow embedding of the Python service under [app/]:
    - [app/services/job_queue.py]: the in-memory job registry;
    - [app/utils/image_io.py]: [clamp_large_image];
    - [app/services/upscale_service.py], [app/services/tfhub_upscale_service.py]:
      the two pipeline backends;
    - [app/api/v1/upscaling.py]: the request surface and the job runner.

    Pillow, TensorFlow Hub and the image codecs are external collaborators:
    they are the fields of the class [PIL] below, and every call into them
    may raise.  What the service itself computes (sizes, states, responses)
    is defined here as the source has it. *)

From Stdlib Require Import Floats.
From Stdlib Require Import ZArith Reals Lra Lia Psatz.
From Stdlib Require Import Ascii String.
From Stdlib.Strings Require Import Byte.
From stdpp Require Import gmap strings list.

Set Warnings "-inexact-float".
Local Open Scope string_scope.
Local Open Scope Z_scope.

(** ** Python values *)

(** [bytes] objects. *)
Definition bytes := list Byte.byte.

(** Exceptions that derive from [Exception].  [HTTPException] is FastAPI's,
    with its status code and detail; every other exception is kept as its
    class name and message. *)
Inductive Exception :=
| HTTPException (status_code : Z) (detail : string)
| PyException (cls : string) (msg : string).

(** [str(exc)]. *)
Definition str (exc : Exception) : string :=
  match exc with
  | HTTPException _ detail => detail
  | PyException _ msg => msg
  end.

(** The outcome of a call: a value, or a raised exception. *)
Inductive result (A : Type) :=
| Ok (a : A)
| Raise (exc : Exception).
Arguments Ok {A} a.
Arguments Raise {A} exc.

#[global] Instance result_ret : MRet result := fun A a => Ok a.
#[global] Instance result_bind : MBind result := fun A B f m =>
  match m with
  | Ok a => f a
  | Raise exc => Raise exc
  end.

(** [str.upper()] and [str.lower()] on ASCII letters. *)
Definition ascii_upper (c : ascii) : ascii :=
  let n := nat_of_ascii c in
  if ((97 <=? n) && (n <=? 122))%nat then ascii_of_nat (n - 32) else c.
Definition ascii_lower (c : ascii) : ascii :=
  let n := nat_of_ascii c in
  if ((65 <=? n) && (n <=? 90))%nat then ascii_of_nat (n + 32) else c.
Fixpoint upper (s : string) : string :=
  match s with
  | EmptyString => EmptyString
  | String c s' => String (ascii_upper c) (upper s')
  end.
Fixpoint lower (s : string) : string :=
  match s with
  | EmptyString => EmptyString
  | String c s' => String (ascii_lower c) (lower s')
  end.

(** [x or default] on an optional string ([None] and the empty string are
    falsy). *)
Definition or_default (x : option string) (default : string) : string :=
  match x with
  | Some s => if decide (s = "") then default else s
  | None => default
  end.

(** ** app/services/job_queue.py *)

Module JobStatus.
Inductive t := queued | processing | done | error.
#[global] Instance eq_dec : EqDecision t.
Proof. solve_decision. Defined.
End JobStatus.

Module UpscaleJob.
(** The dataclass, with its defaults in [new]. *)
Record t := {
  id : string;
  status : JobStatus.t;
  progress : float;
  error : option string;
  result_bytes : option bytes;
  content_type : option string;
}.
Definition new (id : string) : t :=
  {| id := id; status := JobStatus.queued; progress := 0.0%float;
     error := None; result_bytes := None; content_type := None |}.
End UpscaleJob.

(** One keyword argument of [JobQueue.update]: a field of the dataclass and
    the value to store in it. *)
Inductive kwarg :=
| kw_id (v : string)
| kw_status (v : JobStatus.t)
| kw_progress (v : float)
| kw_error (v : option string)
| kw_result_bytes (v : option bytes)
| kw_content_type (v : option string).

(** The keyword's name. *)
Definition kw_name (kw : kwarg) : string :=
  match kw with
  | kw_id _ => "id"
  | kw_status _ => "status"
  | kw_progress _ => "progress"
  | kw_error _ => "error"
  | kw_result_bytes _ => "result_bytes"
  | kw_content_type _ => "content_type"
  end.

(** [setattr(job, k, v)]. *)
Definition setattr (job : UpscaleJob.t) (kw : kwarg) : UpscaleJob.t :=
  let '(UpscaleJob.Build_t i s p e r c) := job in
  match kw with
  | kw_id v => UpscaleJob.Build_t v s p e r c
  | kw_status v => UpscaleJob.Build_t i v p e r c
  | kw_progress v => UpscaleJob.Build_t i s v e r c
  | kw_error v => UpscaleJob.Build_t i s p v r c
  | kw_result_bytes v => UpscaleJob.Build_t i s p e v c
  | kw_content_type v => UpscaleJob.Build_t i s p e r v
  end.

Module JobQueue.
(** The registry: [_jobs] maps a job id to the job object.  Every method
    body below runs as one step (the source holds [_lock] around the
    writes). *)
Record t := { _jobs : gmap string UpscaleJob.t }.

Definition __init__ : t := {| _jobs := ∅ |}.

(** [create], given the value [uuid4().hex] returns for this call. *)
Definition create (uuid4_hex : string) (self : t) : UpscaleJob.t * t :=
  let job := UpscaleJob.new uuid4_hex in
  (job, {| _jobs := <[UpscaleJob.id job := job]> (_jobs self) |}).

Definition get (job_id : string) (self : t) : option UpscaleJob.t :=
  _jobs self !! job_id.

(** [update]: the keyword arguments are stored one after the other, in
    the order they were given, into the job object the registry holds. *)
Definition update (job_id : string) (kwargs : list kwarg) (self : t) : t :=
  match _jobs self !! job_id with
  | None => self
  | Some job => {| _jobs := <[job_id := foldl setattr job kwargs]> (_jobs self) |}
  end.
End JobQueue.

(** ** The external collaborators *)

(** Resampling filters of [Image.resize]. *)
Inductive Resampling := NEAREST | BILINEAR | BICUBIC | LANCZOS.

(** The [ImageFilter] objects the service builds. *)
Inductive ImageFilter :=
| FIND_EDGES
| SHARPEN
| UnsharpMask (radius : float) (percent threshold : Z)
| GaussianBlur (radius : float).

(** The [ImageEnhance] classes the service uses. *)
Inductive ImageEnhance := Contrast | Color.

(** Pillow, as the service sees it: an opaque image with its attributes,
    and the calls the service makes, each of which returns or raises. *)
Class PIL := {
  Image : Type;
  width : Image -> Z;
  height : Image -> Z;
  mode : Image -> string;
  format : Image -> option string;
  (** [Image.open(io.BytesIO(data))] *)
  Image_open : bytes -> result Image;
  (** [img.resize(size, resample)] *)
  Image_resize : Image -> Z * Z -> Resampling -> result Image;
  (** [img.convert(mode)] *)
  Image_convert : Image -> string -> result Image;
  (** [img.filter(f)] *)
  Image_filter : Image -> ImageFilter -> result Image;
  (** [ImageEnhance.X(img).enhance(factor)] *)
  ImageEnhance_enhance : ImageEnhance -> Image -> float -> result Image;
  (** [img.save(buf, format=fmt); buf.getvalue()] *)
  Image_save : Image -> string -> result bytes;
}.

(** [img.size] *)
Definition size `{PIL} (img : Image) : Z * Z := (width img, height img).

(** TensorFlow in the runtime environment: whether [import tensorflow] and
    [import tensorflow_hub] succeed, and the ESRGAN model behind
    [_load_model], [_preprocess_image], the inference call and
    [_postprocess_image]. *)
Class TensorFlow `{PIL} := {
  tensorflow_importable : bool;
  esrgan_inference : Image -> result Image;
}.

(** What Pillow documents about the sizes of the images it returns. *)
Class PILSizes `{PIL} : Prop := {
  resize_size : forall img sz r img',
    Image_resize img sz r = Ok img' -> size img' = sz;
  convert_size : forall img m img',
    Image_convert img m = Ok img' -> size img' = size img;
  filter_size : forall img f img',
    Image_filter img f = Ok img' -> size img' = size img;
  enhance_size : forall e img x img',
    ImageEnhance_enhance e img x = Ok img' -> size img' = size img;
}.

(** ** app/utils/image_io.py *)

(** [int(x)] on a float: truncation toward zero.  Floats are taken as the
    real numbers they stand for, [x ** 0.5] as the square root. *)
Definition int_of_float (x : R) : Z :=
  if Rle_dec 0 x then Zfloor x else Zceil x.

(** The size [clamp_large_image] asks [resize] for. *)
Definition clamp_new_size (w h max_pixels : Z) : Z * Z :=
  let scale := sqrt (IZR max_pixels / IZR (w * h)) in
  (int_of_float (IZR w * scale), int_of_float (IZR h * scale)).

Definition clamp_large_image `{PIL} (img : Image) (max_pixels : Z) : result Image :=
  if width img * height img >? max_pixels then
    Image_resize img (clamp_new_size (width img) (height img) max_pixels) BICUBIC
  else Ok img.

(** The same size in integer arithmetic: [w * sqrt (m / (w*h))] is the
    square root of [w*m/h], and its integer part is the integer square root
    of the integer quotient. *)
Definition clamp_new_size_Z (w h max_pixels : Z) : Z * Z :=
  (Z.sqrt (w * max_pixels / h), Z.sqrt (h * max_pixels / w)).

(** The same computation on binary64 floats, as CPython runs it (with
    [x ** 0.5] correctly rounded), for checking concrete sizes.  The sizes
    are below 2^53 and the products finite, so the conversions are exact. *)
Definition float_of_int (z : Z) : float := of_uint63 (Uint63.of_Z z).
Definition int_of_binary64 (x : float) : Z :=
  match Prim2SF x with
  | S754_finite s m e =>
      let v := if 0 <=? e then Z.pos m * 2 ^ e else Z.pos m / 2 ^ (- e) in
      if s then - v else v
  | _ => 0
  end.
Definition clamp_new_size_binary64 (w h max_pixels : Z) : Z * Z :=
  let scale := PrimFloat.sqrt (float_of_int max_pixels / float_of_int (w * h))%float in
  (int_of_binary64 (float_of_int w * scale)%float,
   int_of_binary64 (float_of_int h * scale)%float).

(** ** app/services/upscale_service.py *)

Module UpscaleRequest.
Record t `{PIL} := { image : Image; factor : Z; denoise : bool }.
End UpscaleRequest.

Module UpscaleService.
Section service.
Context `{PIL}.

Definition _real_esrgan_upscale (img : Image) (factor : Z) (denoise : bool)
  : result Image :=
  let '(w, h) := size img in
  let new_size := (w * factor, h * factor) in
  upscaled ← Image_resize img new_size LANCZOS;
  gray ← Image_convert upscaled "L";
  edges ← Image_filter gray FIND_EDGES;
  sharpened ← Image_filter upscaled (UnsharpMask 1.5 150 3);
  contrast_enhanced ← ImageEnhance_enhance Contrast sharpened 1.15;
  color_enhanced ← ImageEnhance_enhance Color contrast_enhanced 1.08;
  if denoise then
    smoothed ← Image_filter color_enhanced (GaussianBlur 0.5);
    Image_filter smoothed SHARPEN
  else
    Image_filter color_enhanced SHARPEN.

Definition upscale (request : UpscaleRequest.t) : result Image :=
  let img := UpscaleRequest.image request in
  let '(w, h) := size img in
  let max_image_pixels := 4096 * 4096 in
  img ← (if w * h >? max_image_pixels
         then clamp_large_image img max_image_pixels
         else Ok img);
  _real_esrgan_upscale img (UpscaleRequest.factor request)
                       (UpscaleRequest.denoise request).

End service.
End UpscaleService.

(** ** app/services/tfhub_upscale_service.py *)

Module TFHubUpscaleRequest.
Record t `{PIL} := { image : Image; factor : Z; denoise : bool }.
End TFHubUpscaleRequest.

Module TFHubUpscaleService.
Section service.
Context `{TensorFlow}.

(** The imports at the top of the module. *)
Definition import_tensorflow : result unit :=
  if tensorflow_importable then Ok tt
  else Raise (PyException "ImportError" "No module named 'tensorflow'").

(** The module's [try: import ... except ImportError:] block: the flag it
    leaves behind. *)
Definition TF_HUB_AVAILABLE : bool :=
  match import_tensorflow with
  | Ok _ => true
  | Raise _ => false
  end.

(** Importing the module: its body handles the [ImportError] of its own
    imports, so the import itself returns. *)
Definition import_module : result unit :=
  match import_tensorflow with
  | Ok _ => Ok tt
  | Raise _ => Ok tt
  end.

Definition upscale (request : TFHubUpscaleRequest.t) : result Image :=
  if negb TF_HUB_AVAILABLE then
    Raise (PyException "ImportError" "TensorFlow Hub not available")
  else
    let img := TFHubUpscaleRequest.image request in
    let '(w, h) := size img in
    let max_image_pixels := 4096 * 4096 in
    img ← (if w * h >? max_image_pixels
           then clamp_large_image img max_image_pixels
           else Ok img);
    upscaled_img ← esrgan_inference img;
    if TFHubUpscaleRequest.denoise request then
      upscaled_img ← Image_filter upscaled_img (GaussianBlur 0.5);
      Image_filter upscaled_img SHARPEN
    else Ok upscaled_img.

End service.
End TFHubUpscaleService.

(** ** app/api/v1/upscaling.py *)

(** What an endpoint returns. *)
Inductive Response :=
| UpscaleResponse (width height : Z) (mode : string) (format : option string)
| JobCreateResponse (job_id : string) (status : JobStatus.t)
| JobStatusResponse (job_id : string) (status : JobStatus.t) (progress : float)
                    (error : option string)
| StreamingResponse (body : bytes) (media_type : option string)
| JSONResponse (status_code : Z) (detail : string).

(** The arguments a runner thread was started with. *)
Record Thread := {
  t_job_id : string;
  t_data : bytes;
  t_factor : Z;
  t_denoise : bool;
  t_use_tfhub : bool;
}.

(** How far a runner thread has got: started, past its first registry
    update, past its last one. *)
Inductive Phase := Spawned | Working | Finished.

(** The module's shared state: the global [job_queue], the threads started
    so far, and a record of the calls made to [job_queue.update]. *)
Record World := {
  job_queue : JobQueue.t;
  threads : list (Thread * Phase);
  update_calls : list (string * list kwarg);
}.

Definition World0 : World :=
  {| job_queue := JobQueue.__init__; threads := []; update_calls := [] |}.

(** Code that reads and writes the shared state and may raise. *)
Definition M (A : Type) : Type := World -> result A * World.

#[global] Instance M_ret : MRet M := fun A a w => (Ok a, w).
#[global] Instance M_bind : MBind M := fun A B f m w =>
  match m w with
  | (Ok a, w') => f a w'
  | (Raise exc, w') => (Raise exc, w')
  end.

(** A call that does not touch the shared state. *)
Definition lift {A} (r : result A) : M A := fun w => (r, w).

(** [try: body except Exception as exc: handler(exc)] *)
Definition try_except {A} (body : M A) (handler : Exception -> M A) : M A :=
  fun w =>
    match body w with
    | (Ok a, w') => (Ok a, w')
    | (Raise exc, w') => handler exc w'
    end.

(** [job_queue.create()], [job_queue.get(..)], [job_queue.update(..)] on
    the global registry. *)
Definition job_queue_create (uuid4_hex : string) : M UpscaleJob.t := fun w =>
  let '(job, q) := JobQueue.create uuid4_hex (job_queue w) in
  (Ok job, {| job_queue := q; threads := threads w; update_calls := update_calls w |}).

Definition job_queue_get (job_id : string) : M (option UpscaleJob.t) := fun w =>
  (Ok (JobQueue.get job_id (job_queue w)), w).

Definition job_queue_update (job_id : string) (kwargs : list kwarg) : M unit := fun w =>
  (Ok tt, {| job_queue := JobQueue.update job_id kwargs (job_queue w);
             threads := threads w;
             update_calls := update_calls w ++ [(job_id, kwargs)] |}).

(** [threading.Thread(target=_process_job, args=.., daemon=True).start()] *)
Definition Thread_start (t : Thread) : M unit := fun w =>
  (Ok tt, {| job_queue := job_queue w;
             threads := threads w ++ [(t, Spawned)];
             update_calls := update_calls w |}).

(** [factor not in (2, 4, 8)] *)
Definition factor_not_in_2_4_8 (factor : Z) : bool :=
  negb ((factor =? 2) || (factor =? 4) || (factor =? 8)).

Section api.
Context `{TensorFlow}.

(** The module-level [try: from app.services.tfhub_upscale_service import ..
    except ImportError:] block: the flag it leaves behind. *)
Definition TFHUB_AVAILABLE : bool :=
  match TFHubUpscaleService.import_module with
  | Ok _ => true
  | Raise _ => false
  end.

(** [out_format = (img.format or "PNG").upper()] *)
Definition out_format_of (img : Image) : string :=
  upper (or_default (format img) "PNG").

(** [Image.open] inside [try: .. except Exception: raise HTTPException(400)] *)
Definition open_or_400 (contents : bytes) : result Image :=
  match Image_open contents with
  | Ok img => Ok img
  | Raise _ => Raise (HTTPException 400 "Invalid image file")
  end.

(** [POST /process] *)
Definition upscale_image (file : bytes) (factor : Z) (denoise : bool)
  : result Response :=
  if factor_not_in_2_4_8 factor then
    Raise (HTTPException 400 "factor must be 2, 4, or 8")
  else
    img ← open_or_400 file;
    let req := {| UpscaleRequest.image := img; UpscaleRequest.factor := factor;
                  UpscaleRequest.denoise := denoise |} in
    upscaled ← UpscaleService.upscale req;
    let out_format := out_format_of img in
    buf ← Image_save upscaled out_format;
    Ok (UpscaleResponse (width upscaled) (height upscaled) (mode upscaled)
                        (Some out_format)).

(** [POST /download] *)
Definition upscale_and_download (file : bytes) (factor : Z) (denoise : bool)
  : result Response :=
  img ← open_or_400 file;
  let req := {| UpscaleRequest.image := img; UpscaleRequest.factor := factor;
                UpscaleRequest.denoise := denoise |} in
  upscaled ← UpscaleService.upscale req;
  let out_format := out_format_of img in
  buf ← Image_save upscaled out_format;
  Ok (StreamingResponse buf (Some ("image/" ++ lower out_format))).

(** The body of the runner's [try] block up to its registry update: decode,
    run the selected backend, encode. *)
Definition run_pipeline (data : bytes) (factor : Z) (denoise use_tfhub : bool)
  : result (bytes * string) :=
  img ← Image_open data;
  upscaled ←
    (if use_tfhub && TFHUB_AVAILABLE then
       TFHubUpscaleService.upscale
         {| TFHubUpscaleRequest.image := img; TFHubUpscaleRequest.factor := 4;
            TFHubUpscaleRequest.denoise := denoise |}
     else
       UpscaleService.upscale
         {| UpscaleRequest.image := img; UpscaleRequest.factor := factor;
            UpscaleRequest.denoise := denoise |});
  let out_format := out_format_of img in
  buf ← Image_save upscaled out_format;
  Ok (buf, "image/" ++ lower out_format).

(** The keyword arguments of the runner's three calls to [update]. *)
Definition kwargs_processing : list kwarg :=
  [kw_status JobStatus.processing; kw_progress 0.05].
Definition kwargs_done (buf : bytes) (content_type : string) : list kwarg :=
  [kw_status JobStatus.done; kw_progress 1.0;
   kw_result_bytes (Some buf); kw_content_type (Some content_type)].
Definition kwargs_error (exc : Exception) : list kwarg :=
  [kw_status JobStatus.error; kw_error (Some (str exc))].

Definition _process_job (job_id : string) (data : bytes) (factor : Z)
    (denoise use_tfhub : bool) : M unit :=
  job_queue_update job_id kwargs_processing;;
  try_except
    ('(buf, content_type) ← lift (run_pipeline data factor denoise use_tfhub);
     job_queue_update job_id (kwargs_done buf content_type))
    (fun exc => job_queue_update job_id (kwargs_error exc)).

(** [POST /job], given the value [uuid4().hex] returns inside [create]. *)
Definition create_upscale_job (uuid4_hex : string) (file : bytes) (factor : Z)
    (denoise use_tfhub : bool) : M Response :=
  factor ← lift
    (if use_tfhub then
       if negb TFHUB_AVAILABLE then
         Raise (HTTPException 400
           "TensorFlow Hub not available. Install with: poetry install --with ml")
       else Ok 4
     else
       if factor_not_in_2_4_8 factor then
         Raise (HTTPException 400 "factor must be 2, 4, or 8 for PIL mode")
       else Ok factor);
  let data := file in
  job ← job_queue_create uuid4_hex;
  Thread_start {| t_job_id := UpscaleJob.id job; t_data := data; t_factor := factor;
                  t_denoise := denoise; t_use_tfhub := use_tfhub |};;
  (* [job] is the object the registry holds: its status is read there *)
  current ← job_queue_get (UpscaleJob.id job);
  mret (JobCreateResponse (UpscaleJob.id job)
          (UpscaleJob.status (default job current))).

(** [GET /job/{job_id}] *)
Definition get_job_status (job_id : string) : M Response :=
  job ← job_queue_get job_id;
  match job with
  | None => lift (Raise (HTTPException 404 "job not found"))
  | Some job =>
      mret (JobStatusResponse (UpscaleJob.id job) (UpscaleJob.status job)
              (UpscaleJob.progress job) (UpscaleJob.error job))
  end.

(** [io.BytesIO(b)]: the buffer's content; [None] gives an empty buffer. *)
Definition BytesIO (b : option bytes) : bytes := default [] b.

(** [GET /job/{job_id}/result] *)
Definition get_job_result (job_id : string) : M Response :=
  job ← job_queue_get job_id;
  match job with
  | None => lift (Raise (HTTPException 404 "job not found"))
  | Some job =>
      if decide (UpscaleJob.status job ≠ JobStatus.done) then
        mret (JSONResponse 409 "job not completed")
      else
        mret (StreamingResponse (BytesIO (UpscaleJob.result_bytes job))
                                (UpscaleJob.content_type job))
  end.

(** One step of the running service: a request to [POST /job] is handled
    (with an id from [uuid4] that the registry does not hold yet), or a
    started runner thread makes its next registry update.  The two updates
    of a thread are the two of [_process_job]; between them other threads
    and requests may take their steps. *)
Definition set_phase (i : nat) (t : Thread) (p : Phase) (w : World)
    (q : JobQueue.t) (kwargs : list kwarg) : World :=
  {| job_queue := q;
     threads := <[i := (t, p)]> (threads w);
     update_calls := update_calls w ++ [(t_job_id t, kwargs)] |}.

Definition kwargs_terminal (t : Thread) : list kwarg :=
  match run_pipeline (t_data t) (t_factor t) (t_denoise t) (t_use_tfhub t) with
  | Ok (buf, content_type) => kwargs_done buf content_type
  | Raise exc => kwargs_error exc
  end.

Inductive step : World -> World -> Prop :=
| step_submit w uuid4_hex file factor denoise use_tfhub :
    JobQueue.get uuid4_hex (job_queue w) = None ->
    step w (create_upscale_job uuid4_hex file factor denoise use_tfhub w).2
| step_begin w i t :
    threads w !! i = Some (t, Spawned) ->
    step w (set_phase i t Working w
              (JobQueue.update (t_job_id t) kwargs_processing (job_queue w))
              kwargs_processing)
| step_end w i t :
    threads w !! i = Some (t, Working) ->
    step w (set_phase i t Finished w
              (JobQueue.update (t_job_id t) (kwargs_terminal t) (job_queue w))
              (kwargs_terminal t)).

(** The states the service can be in. *)
Inductive reachable : World -> Prop :=
| reachable_init : reachable World0
| reachable_step w w' : reachable w -> step w w' -> reachable w'.

End api.

(** ** A small stand-in for the collaborators

    Used to run the service on concrete requests.  An image is its
    attributes alone; an encoded image is nine bytes: width and height as
    little-endian 32-bit numbers and a tag for the format.  [resize] refuses
    sizes below one pixel, as Pillow does. *)

Module Reference.

Record RefImage := {
  r_width : Z;
  r_height : Z;
  r_mode : string;
  r_format : option string;
}.

Definition byte_of_Z (z : Z) : Byte.byte :=
  default Byte.x00 (Byte.of_N (Z.to_N (z mod 256))).
Definition Z_of_byte (b : Byte.byte) : Z := Z.of_N (Byte.to_N b).

Definition le32 (z : Z) : bytes :=
  [byte_of_Z z; byte_of_Z (z / 256); byte_of_Z (z / 65536); byte_of_Z (z / 16777216)].
Definition of_le32 (b0 b1 b2 b3 : Byte.byte) : Z :=
  Z_of_byte b0 + 256 * Z_of_byte b1 + 65536 * Z_of_byte b2 + 16777216 * Z_of_byte b3.

Definition format_of_tag (tag : Byte.byte) : option string :=
  match Z_of_byte tag with
  | 1 => Some "PNG"
  | 2 => Some "JPEG"
  | _ => None
  end.
Definition tag_of_format (fmt : string) : option Byte.byte :=
  if decide (fmt = "PNG") then Some Byte.x01
  else if decide (fmt = "JPEG") then Some Byte.x02
  else None.

Definition ref_open (data : bytes) : result RefImage :=
  match data with
  | [w0; w1; w2; w3; h0; h1; h2; h3; tag] =>
      let w := of_le32 w0 w1 w2 w3 in
      let h := of_le32 h0 h1 h2 h3 in
      if (1 <=? w) && (1 <=? h) then
        Ok {| r_width := w; r_height := h; r_mode := "RGB";
              r_format := format_of_tag tag |}
      else Raise (PyException "UnidentifiedImageError" "cannot identify image file")
  | _ => Raise (PyException "UnidentifiedImageError" "cannot identify image file")
  end.

Definition ref_resize (img : RefImage) (sz : Z * Z) (r : Resampling)
  : result RefImage :=
  if (sz.1 <? 1) || (sz.2 <? 1) then
    Raise (PyException "ValueError" "height and width must be > 0")
  else Ok {| r_width := sz.1; r_height := sz.2; r_mode := r_mode img;
             r_format := None |}.

Definition ref_convert (img : RefImage) (m : string) : result RefImage :=
  Ok {| r_width := r_width img; r_height := r_height img; r_mode := m;
        r_format := None |}.

Definition ref_filter (img : RefImage) (f : ImageFilter) : result RefImage :=
  Ok {| r_width := r_width img; r_height := r_height img; r_mode := r_mode img;
        r_format := None |}.

Definition ref_enhance (e : ImageEnhance) (img : RefImage) (x : float)
  : result RefImage :=
  Ok {| r_width := r_width img; r_height := r_height img; r_mode := r_mode img;
        r_format := None |}.

Definition ref_save (img : RefImage) (fmt : string) : result bytes :=
  match tag_of_format fmt with
  | Some tag => Ok (le32 (r_width img) ++ le32 (r_height img) ++ [tag])%list
  | None => Raise (PyException "KeyError" fmt)
  end.

#[export] Instance pil : PIL := {|
  Image := RefImage;
  width := r_width;
  height := r_height;
  mode := r_mode;
  format := r_format;
  Image_open := ref_open;
  Image_resize := ref_resize;
  Image_convert := ref_convert;
  Image_filter := ref_filter;
  ImageEnhance_enhance := ref_enhance;
  Image_save := ref_save;
|}.

(** A runtime without TensorFlow, and one with it (the model enlarges four
    times). *)
Definition no_tensorflow : TensorFlow := {|
  tensorflow_importable := false;
  esrgan_inference := fun _ => Raise (PyException "ImportError" "TensorFlow Hub not available");
|}.
Definition with_tensorflow : TensorFlow := {|
  tensorflow_importable := true;
  esrgan_inference := fun img =>
    Ok {| r_width := 4 * r_width img; r_height := 4 * r_height img;
          r_mode := "RGB"; r_format := None |};
|}.

(** An encoded PNG of the given size. *)
Definition png (w h : Z) : bytes := (le32 w ++ le32 h ++ [Byte.x01])%list.

End Reference.

(** The stand-in respects the sizes Pillow documents. *)
#[export] Instance Reference_sizes : PILSizes (H := Reference.pil).
Proof.
  split.
  - intros img sz r img'. cbn. unfold Reference.ref_resize, size.
    destruct ((sz.1 <? 1) || (sz.2 <? 1)); [discriminate|].
    intros [= <-]. by destruct sz.
  - intros img m img'. cbn. by intros [= <-].
  - intros img f img'. cbn. by intros [= <-].
  - intros e img x img'. cbn. by intros [= <-].
Qed.

(** ** The vocabulary of the properties *)

(** [getattr(job, name)], as the keyword argument that would store the same
    value; [None] when the dataclass has no such field. *)
Definition getattr (job : UpscaleJob.t) (name : string) : option kwarg :=
  if decide (name = "id") then Some (kw_id (UpscaleJob.id job))
  else if decide (name = "status") then Some (kw_status (UpscaleJob.status job))
  else if decide (name = "progress") then Some (kw_progress (UpscaleJob.progress job))
  else if decide (name = "error") then Some (kw_error (UpscaleJob.error job))
  else if decide (name = "result_bytes")
       then Some (kw_result_bytes (UpscaleJob.result_bytes job))
  else if decide (name = "content_type")
       then Some (kw_content_type (UpscaleJob.content_type job))
  else None.

(** A job has a result: the artifact and its content type. *)
Definition result_present (job : UpscaleJob.t) : Prop :=
  is_Some (UpscaleJob.result_bytes job) /\ is_Some (UpscaleJob.content_type job).
Definition result_absent (job : UpscaleJob.t) : Prop :=
  UpscaleJob.result_bytes job = None /\ UpscaleJob.content_type job = None.
Definition error_present (job : UpscaleJob.t) : Prop :=
  is_Some (UpscaleJob.error job).
Definition error_absent (job : UpscaleJob.t) : Prop :=
  UpscaleJob.error job = None.

(** [status in (done, error)] *)
Definition terminal (s : JobStatus.t) : bool :=
  match s with
  | JobStatus.done | JobStatus.error => true
  | _ => false
  end.

(** An [update] call is terminal when it stores a terminal status. *)
Definition sets_terminal (kwargs : list kwarg) : bool :=
  existsb (fun kw => match kw with kw_status s => terminal s | _ => false end) kwargs.

(** [x <= y] and [x < y] on progress values. *)
Definition progress_le (x y : float) : Prop := PrimFloat.leb x y = true.
Definition progress_lt (x y : float) : Prop := PrimFloat.ltb x y = true.

(** The max-pixel guard in the words of the specification: over the
    ceiling of 4096 x 4096 pixels the image is resized to the clamped size,
    otherwise it is passed on as it is. *)
Definition max_pixels : Z := 4096 * 4096.
Definition guarded_size (sz : Z * Z) : Z * Z :=
  if sz.1 * sz.2 >? max_pixels then clamp_new_size sz.1 sz.2 max_pixels else sz.
Definition max_pixel_guard `{PIL} (img : Image) : result Image :=
  if width img * height img >? max_pixels
  then Image_resize img (guarded_size (size img)) BICUBIC
  else Ok img.

(** The backend call of the runner's [try] block, on a decoded image. *)
Definition run_backend `{TensorFlow} (img : Image) (factor : Z) (denoise use_tfhub : bool)
  : result Image :=
  if use_tfhub && TFHUB_AVAILABLE then
    TFHubUpscaleService.upscale
      {| TFHubUpscaleRequest.image := img; TFHubUpscaleRequest.factor := 4;
         TFHubUpscaleRequest.denoise := denoise |}
  else
    UpscaleService.upscale
      {| UpscaleRequest.image := img; UpscaleRequest.factor := factor;
         UpscaleRequest.denoise := denoise |}.

(** ** The invariant of the running service *)

(** What a job looks like in each status: its progress, and which of the
    error and the result it has. *)
Definition job_ok (job_id : string) (job : UpscaleJob.t) : Prop :=
  UpscaleJob.id job = job_id /\
  match UpscaleJob.status job with
  | JobStatus.queued =>
      UpscaleJob.progress job = 0.0%float /\ error_absent job /\ result_absent job
  | JobStatus.processing =>
      UpscaleJob.progress job = 0.05%float /\ error_absent job /\ result_absent job
  | JobStatus.done =>
      UpscaleJob.progress job = 1.0%float /\ error_absent job /\ result_present job
  | JobStatus.error =>
      UpscaleJob.progress job = 0.05%float /\ error_present job /\ result_absent job
  end.

(** The status a thread's job has in each phase of the thread. *)
Definition phase_matches (p : Phase) (s : JobStatus.t) : Prop :=
  match p with
  | Spawned => s = JobStatus.queued
  | Working => s = JobStatus.processing
  | Finished => terminal s = true
  end.

Definition thread_ids (ts : list (Thread * Phase)) : list string :=
  (fun tp => t_job_id tp.1) <$> ts.

Record invariant (w : World) : Prop := {
  inv_jobs : forall job_id job,
    JobQueue.get job_id (job_queue w) = Some job -> job_ok job_id job;
  inv_threads : forall i t p,
    threads w !! i = Some (t, p) ->
    exists job, JobQueue.get (t_job_id t) (job_queue w) = Some job /\
                phase_matches p (UpscaleJob.status job);
  inv_distinct : NoDup (thread_ids (threads w));
}.

(** ** One job from submission to completion

    A 100 x 100 PNG is submitted with factor 2 to the filter backend, in a
    runtime without TensorFlow; its thread then makes its two updates. *)

Module Scenario.
Import Reference.

Definition thread1 : Thread :=
  {| t_job_id := "job1"; t_data := png 100 100; t_factor := 2;
     t_denoise := false; t_use_tfhub := false |}.

Definition submitted : World :=
  (create_upscale_job (H0 := no_tensorflow) "job1" (png 100 100) 2 false false World0).2.

Definition working : World :=
  set_phase 0 thread1 Working submitted
    (JobQueue.update "job1" kwargs_processing (job_queue submitted))
    kwargs_processing.

Definition finished : World :=
  set_phase 0 thread1 Finished working
    (JobQueue.update "job1" (kwargs_terminal (H0 := no_tensorflow) thread1)
       (job_queue working))
    (kwargs_terminal (H0 := no_tensorflow) thread1).

Definition job_queued : UpscaleJob.t := UpscaleJob.new "job1".

Definition job_processing : UpscaleJob.t :=
  {| UpscaleJob.id := "job1"; UpscaleJob.status := JobStatus.processing;
     UpscaleJob.progress := 0.05; UpscaleJob.error := None;
     UpscaleJob.result_bytes := None; UpscaleJob.content_type := None |}.

Definition job_done : UpscaleJob.t :=
  {| UpscaleJob.id := "job1"; UpscaleJob.status := JobStatus.done;
     UpscaleJob.progress := 1.0; UpscaleJob.error := None;
     UpscaleJob.result_bytes := Some (png 200 200);
     UpscaleJob.content_type := Some "image/png" |}.

End Scenario.

(** Images of the stand-in used below. *)

Definition img_5000_4000 : Reference.RefImage :=
  {| Reference.r_width := 5000; Reference.r_height := 4000;
     Reference.r_mode := "RGB"; Reference.r_format := Some "PNG" |}.

Definition img_100_100 : Reference.RefImage :=
  {| Reference.r_width := 100; Reference.r_height := 100;
     Reference.r_mode := "RGB"; Reference.r_format := Some "PNG" |}.

Definition img_1_16777217 : Reference.RefImage :=
  {| Reference.r_width := 1; Reference.r_height := 16777217;
     Reference.r_mode := "RGB"; Reference.r_format := Some "PNG" |}.

(** ** app/utils/image_io.py: the other helpers *)

Definition load_image_bytes `{PIL} (data : bytes) : result Image :=
  Image_open data.

(** [img.mode not in ("RGB", "RGBA")] *)
Definition mode_not_rgb (m : string) : bool :=
  negb (bool_decide (m = "RGB") || bool_decide (m = "RGBA")).

Definition ensure_rgb `{PIL} (img : Image) : result Image :=
  if mode_not_rgb (mode img) then Image_convert img "RGB" else Ok img.

(** What Pillow documents about the mode of a converted image. *)
Class PILModes `{PIL} : Prop := {
  convert_mode : forall img m img',
    Image_convert img m = Ok img' -> mode img' = m;
}.

(** The stand-in's [convert] gives the mode asked for. *)
#[export] Instance Reference_modes : PILModes (H := Reference.pil).
Proof. split. intros img m img'. cbn. by intros [= <-]. Qed.

(** A 100 x 100 greyscale image. *)
Definition img_gray : Reference.RefImage :=
  {| Reference.r_width := 100; Reference.r_height := 100;
     Reference.r_mode := "L"; Reference.r_format := Some "PNG" |}.

(** ** app/api/v1/websocket.py *)

(** A [WebSocket] object, by its identity. *)
Abbreviation WebSocket := nat (only parsing).

(** What [send_text] is given: the status of the job as JSON, or the
    notification that there is no such job. *)
Inductive Message :=
| StatusData (job_id : string) (status : JobStatus.t) (progress : float)
             (error : option string)
| JobNotFound.

(** The message closes the session: the job is done or in error, or there
    is no such job. *)
Definition is_final (msg : Message) : bool :=
  match msg with
  | StatusData _ s _ _ => terminal s
  | JobNotFound => true
  end.

(** How the loop of a session has gone so far: it left the loop after a
    final message, the client was gone when a message was to be sent, or
    it is still polling. *)
Inductive SessionEnd := Closed | Disconnected | Polling.

(** The loop of [websocket_job_progress], one tick after the other.  A tick
    is the registry as [job_queue.get] finds it at that moment, and whether
    the client is still there to take the message ([send_text] raises
    [WebSocketDisconnect] otherwise). *)
Fixpoint poll_loop (job_id : string) (ticks : list (JobQueue.t * bool))
  : list Message * SessionEnd :=
  match ticks with
  | [] => ([], Polling)
  | (q, connected) :: ticks' =>
      match JobQueue.get job_id q with
      | Some job =>
          if connected then
            let msg := StatusData (UpscaleJob.id job) (UpscaleJob.status job)
                         (UpscaleJob.progress job) (UpscaleJob.error job) in
            if terminal (UpscaleJob.status job) then ([msg], Closed)
            else let '(msgs, e) := poll_loop job_id ticks' in (msg :: msgs, e)
          else ([], Disconnected)
      | None =>
          if connected then ([JobNotFound], Closed) else ([], Disconnected)
      end
  end.

(** The module's [active_connections]: the sockets watching each job. *)
Abbreviation Connections := (gmap string (gset WebSocket)) (only parsing).

(** The registration at the start of a session. *)
Definition register (job_id : string) (websocket : WebSocket)
    (active_connections : Connections) : Connections :=
  let active_connections :=
    match active_connections !! job_id with
    | None => <[job_id := ∅]> active_connections
    | Some _ => active_connections
    end in
  match active_connections !! job_id with
  | Some sockets => <[job_id := sockets ∪ {[websocket]}]> active_connections
  | None => active_connections
  end.

(** The [finally] block at its end. *)
Definition cleanup (job_id : string) (websocket : WebSocket)
    (active_connections : Connections) : Connections :=
  match active_connections !! job_id with
  | Some sockets =>
      let sockets := sockets ∖ {[websocket]} in
      if decide (sockets = ∅) then delete job_id active_connections
      else <[job_id := sockets]> active_connections
  | None => active_connections
  end.

(** A session over the ticks given: the messages sent, how the loop went,
    and the connections afterwards (the [finally] block has run unless the
    session is still polling). *)
Definition websocket_job_progress (websocket : WebSocket) (job_id : string)
    (ticks : list (JobQueue.t * bool)) (active_connections : Connections)
  : list Message * SessionEnd * Connections :=
  let active_connections := register job_id websocket active_connections in
  let '(msgs, e) := poll_loop job_id ticks in
  (msgs, e,
   match e with
   | Polling => active_connections
   | _ => cleanup job_id websocket active_connections
   end).

(** [broadcast_job_update]: the sockets that took the message, and the
    connections afterwards; [accepts] tells which sockets take a message
    ([send_text] raises for the others). *)
Definition broadcast_job_update (job_id : string) (accepts : WebSocket -> bool)
    (active_connections : Connections) : gset WebSocket * Connections :=
  match active_connections !! job_id with
  | Some sockets =>
      let disconnected := filter (fun ws => accepts ws = false) sockets in
      (filter (fun ws => accepts ws = true) sockets,
       <[job_id := sockets ∖ disconnected]> active_connections)
  | None => (∅, active_connections)
  end.

(** No job is left with an empty set of sockets. *)
Definition no_empty_sets (active_connections : Connections) : Prop :=
  forall job_id sockets, active_connections !! job_id = Some sockets -> sockets ≠ ∅.

(** A sequence of states of the service, each reached from the one
    before. *)
Inductive run_of `{TensorFlow} : list World -> Prop :=
| run_nil : run_of []
| run_one w : reachable w -> run_of [w]
| run_cons w w' ws : reachable w -> rtc step w w' -> run_of (w' :: ws) ->
                     run_of (w :: w' :: ws).

(** The status a message reports, if it reports one. *)
Definition message_status (msg : Message) : option JobStatus.t :=
  match msg with
  | StatusData _ s _ _ => Some s
  | JobNotFound => None
  end.

(** What a session sends at a tick at which the client is there. *)
Definition message_at (job_id : string) (q : JobQueue.t) : Message :=
  match JobQueue.get job_id q with
  | Some job => StatusData (UpscaleJob.id job) (UpscaleJob.status job)
                  (UpscaleJob.progress job) (UpscaleJob.error job)
  | None => JobNotFound
  end.

(** The ticks of a session that polls a run of the service: at each tick
    the registry of the state the service is in, and whether the client is
    still there. *)
Definition ticks_of (run : list (World * bool)) : list (JobQueue.t * bool) :=
  (fun wc => (job_queue wc.1, wc.2)) <$> run.

(** ** More vocabulary: the order of statuses and the calls per job *)

(** How far a status is along [queued], [processing], terminal. *)
Definition status_rank (s : JobStatus.t) : nat :=
  match s with
  | JobStatus.queued => 0
  | JobStatus.processing => 1
  | JobStatus.done | JobStatus.error => 2
  end.

(** The keyword arguments of the calls to [update] made for one job, in the
    order they were made. *)
Definition calls_for (job_id : string) (w : World) : list (list kwarg) :=
  (filter (fun c => c.1 = job_id) (update_calls w)).*2.

(** The calls a thread has made by the time it is in a phase. *)
Definition calls_by_phase `{TensorFlow} (t : Thread) (p : Phase) : list (list kwarg) :=
  match p with
  | Spawned => []
  | Working => [kwargs_processing]
  | Finished => [kwargs_processing; kwargs_terminal t]
  end.

(** Every job has its thread; the calls recorded for a thread's job are
    those of the thread's phase; the job of a finished thread holds what the
    pipeline gave for the thread's arguments; and a thread's factor is one
    that passed the checks of [POST /job]. *)
Record bookkeeping `{TensorFlow} (w : World) : Prop := {
  bk_thread : forall job_id job,
    JobQueue.get job_id (job_queue w) = Some job ->
    exists i t p, threads w !! i = Some (t, p) /\ t_job_id t = job_id;
  bk_calls : forall i t p,
    threads w !! i = Some (t, p) ->
    calls_for (t_job_id t) w = calls_by_phase t p;
  bk_owner : forall c, c ∈ update_calls w ->
    exists i t p, threads w !! i = Some (t, p) /\ t_job_id t = c.1;
  bk_outcome : forall i t job,
    threads w !! i = Some (t, Finished) ->
    JobQueue.get (t_job_id t) (job_queue w) = Some job ->
    match run_pipeline (t_data t) (t_factor t) (t_denoise t) (t_use_tfhub t) with
    | Ok (buf, content_type) =>
        UpscaleJob.status job = JobStatus.done /\
        UpscaleJob.result_bytes job = Some buf /\
        UpscaleJob.content_type job = Some content_type
    | Raise exc =>
        UpscaleJob.status job = JobStatus.error /\
        UpscaleJob.error job = Some (str exc)
    end;
  bk_factor : forall i t p,
    threads w !! i = Some (t, p) ->
    if t_use_tfhub t then t_factor t = 4
    else factor_not_in_2_4_8 (t_factor t) = false;
}.

(** * Properties *)

(** ** The registry *)

Lemma getattr_setattr job kw name :
  getattr (setattr job kw) name =
  if decide (name = kw_name kw) then Some kw else getattr job name.
Proof.
  destruct job, kw; unfold getattr; cbn;
    repeat (case_decide; simplify_eq; try done).
Qed.

Lemma getattr_foldl_other kwargs : forall job name,
  name ∉ kw_name <$> kwargs ->
  getattr (foldl setattr job kwargs) name = getattr job name.
Proof.
  induction kwargs as [|kw kwargs IH]; intros job name Hn; [done|].
  cbn in *. apply not_elem_of_cons in Hn as [Hne Hn].
  rewrite IH by done. rewrite getattr_setattr. by case_decide.
Qed.

Lemma getattr_foldl_given kwargs : forall job kw,
  NoDup (kw_name <$> kwargs) -> kw ∈ kwargs ->
  getattr (foldl setattr job kwargs) (kw_name kw) = Some kw.
Proof.
  induction kwargs as [|kw0 kwargs IH]; intros job kw Hnd Hin.
  - by apply not_elem_of_nil in Hin.
  - cbn in *. apply NoDup_cons in Hnd as [Hfresh Hnd].
    apply elem_of_cons in Hin as [->|Hin].
    + rewrite getattr_foldl_other by done.
      rewrite getattr_setattr. by case_decide.
    + by apply IH.
Qed.

Lemma update_unknown q job_id kwargs :
  JobQueue.get job_id q = None -> JobQueue.update job_id kwargs q = q.
Proof. unfold JobQueue.get, JobQueue.update. by intros ->. Qed.

Lemma update_known q job_id kwargs job :
  JobQueue.get job_id q = Some job ->
  JobQueue.get job_id (JobQueue.update job_id kwargs q)
  = Some (foldl setattr job kwargs).
Proof.
  unfold JobQueue.get, JobQueue.update. intros ->. cbn.
  apply lookup_insert_eq.
Qed.

Lemma update_other q job_id kwargs other :
  other ≠ job_id ->
  JobQueue.get other (JobQueue.update job_id kwargs q) = JobQueue.get other q.
Proof.
  unfold JobQueue.get, JobQueue.update. intros Hne.
  destruct (JobQueue._jobs q !! job_id); [|done]. cbn.
  by apply lookup_insert_ne.
Qed.

(** C4.  [update] on an id the registry does not hold returns without
    raising and leaves the registry as it was.  On an id it holds, the job
    gets exactly the given fields (each named field has the given value,
    every other field keeps its value) and no other job changes. *)
Theorem update_noop_or_merge (w : World) (job_id : string) (kwargs : list kwarg) :
  (job_queue_update job_id kwargs w).1 = Ok tt /\
  (JobQueue.get job_id (job_queue w) = None ->
     JobQueue.update job_id kwargs (job_queue w) = job_queue w) /\
  (forall job, JobQueue.get job_id (job_queue w) = Some job ->
     NoDup (kw_name <$> kwargs) ->
     exists job',
       JobQueue.get job_id (JobQueue.update job_id kwargs (job_queue w)) = Some job' /\
       (forall kw, kw ∈ kwargs -> getattr job' (kw_name kw) = Some kw) /\
       (forall name, name ∉ kw_name <$> kwargs ->
          getattr job' name = getattr job name)) /\
  (forall other, other ≠ job_id ->
     JobQueue.get other (JobQueue.update job_id kwargs (job_queue w))
     = JobQueue.get other (job_queue w)).
Proof.
  split; [done|]. split; [apply update_unknown|]. split.
  - intros job Hjob Hnd. exists (foldl setattr job kwargs).
    split; [by apply update_known|]. split.
    + intros kw Hin. by apply getattr_foldl_given.
    + intros name Hn. by apply getattr_foldl_other.
  - intros other Hne. by apply update_other.
Qed.

(** ** The job runner *)

Section runner.
Context `{TensorFlow}.

Lemma run_pipeline_decode_raises data factor denoise use_tfhub exc :
  Image_open data = Raise exc ->
  run_pipeline data factor denoise use_tfhub = Raise exc.
Proof. unfold run_pipeline. by intros ->. Qed.

Lemma run_pipeline_backend_raises data factor denoise use_tfhub img exc :
  Image_open data = Ok img ->
  run_backend img factor denoise use_tfhub = Raise exc ->
  run_pipeline data factor denoise use_tfhub = Raise exc.
Proof.
  intros Hopen Hb.
  change (run_pipeline data factor denoise use_tfhub) with
    (img ← Image_open data;
     upscaled ← run_backend img factor denoise use_tfhub;
     buf ← Image_save upscaled (out_format_of img);
     Ok (buf, "image/" ++ lower (out_format_of img))%string).
  rewrite Hopen. cbn. by rewrite Hb.
Qed.

Lemma process_job_unfold job_id data factor denoise use_tfhub w :
  let t := {| t_job_id := job_id; t_data := data; t_factor := factor;
              t_denoise := denoise; t_use_tfhub := use_tfhub |} in
  _process_job job_id data factor denoise use_tfhub w =
  (Ok tt,
   {| job_queue :=
        JobQueue.update job_id (kwargs_terminal t)
          (JobQueue.update job_id kwargs_processing (job_queue w));
      threads := threads w;
      update_calls :=
        update_calls w ++ [(job_id, kwargs_processing); (job_id, kwargs_terminal t)] |}).
Proof.
  cbn. unfold _process_job, kwargs_terminal, try_except, lift, job_queue_update,
    mbind, M_bind. cbn.
  destruct (run_pipeline data factor denoise use_tfhub) as [[buf ct]|exc]; cbn;
    by rewrite <- app_assoc.
Qed.

Lemma kwargs_terminal_is_terminal t : sets_terminal (kwargs_terminal t) = true.
Proof.
  unfold kwargs_terminal.
  by destruct (run_pipeline _ _ _ _) as [[buf ct]|exc].
Qed.

(** C2.  The runner returns to its caller without raising, whatever its
    arguments and whatever the registry holds.  It calls [update] exactly
    twice: first the progress update, which is not terminal, then one
    terminal update.  When decoding, the backend or the encoder raised, that
    terminal update stores the status [error] and [str(exc)]; otherwise it
    stores the status [done]. *)
Theorem process_job_one_terminal_update
    (job_id : string) (data : bytes) (factor : Z) (denoise use_tfhub : bool)
    (w : World) :
  exists last w',
    _process_job job_id data factor denoise use_tfhub w = (Ok tt, w') /\
    update_calls w' =
      (update_calls w ++ [(job_id, kwargs_processing); (job_id, last)])%list /\
    job_queue w' =
      JobQueue.update job_id last
        (JobQueue.update job_id kwargs_processing (job_queue w)) /\
    threads w' = threads w /\
    sets_terminal kwargs_processing = false /\
    sets_terminal last = true /\
    match run_pipeline data factor denoise use_tfhub with
    | Ok (buf, content_type) => last = kwargs_done buf content_type
    | Raise exc => last = [kw_status JobStatus.error; kw_error (Some (str exc))]
    end /\
    (forall exc, Image_open data = Raise exc ->
       last = [kw_status JobStatus.error; kw_error (Some (str exc))]) /\
    (forall img exc, Image_open data = Ok img ->
       run_backend img factor denoise use_tfhub = Raise exc ->
       last = [kw_status JobStatus.error; kw_error (Some (str exc))]).
Proof.
  pose proof (process_job_unfold job_id data factor denoise use_tfhub w) as Hrun.
  cbn zeta in Hrun.
  set (t := {| t_job_id := job_id; t_data := data; t_factor := factor;
               t_denoise := denoise; t_use_tfhub := use_tfhub |}) in Hrun.
  eexists (kwargs_terminal t), _. split; [exact Hrun|]. cbn.
  repeat split; try apply kwargs_terminal_is_terminal.
  - unfold kwargs_terminal, t; cbn.
    by destruct (run_pipeline _ _ _ _) as [[buf ct]|exc].
  - intros exc Hopen. unfold kwargs_terminal, t; cbn.
    by rewrite (run_pipeline_decode_raises _ _ _ _ _ Hopen).
  - intros img exc Hopen Hback. unfold kwargs_terminal, t; cbn.
    by rewrite (run_pipeline_backend_raises _ _ _ _ _ _ Hopen Hback).
Qed.

End runner.

(** ** The invariant is kept by every step *)

Lemma job_ok_progress job_id job :
  job_ok job_id job ->
  progress_le 0 (UpscaleJob.progress job) /\
  progress_le (UpscaleJob.progress job) 1 /\
  progress_le (UpscaleJob.progress job) (UpscaleJob.progress job).
Proof.
  intros [_ Hs].
  destruct (UpscaleJob.status job); destruct Hs as (-> & _); by vm_compute.
Qed.

Lemma job_ok_processing job_id job :
  job_ok job_id job -> UpscaleJob.status job = JobStatus.queued ->
  job_ok job_id (foldl setattr job [kw_status JobStatus.processing; kw_progress 0.05]).
Proof.
  destruct job as [i s p e r c]. intros [Hid Hs] Hq. cbn in *. subst s.
  destruct Hs as (_ & He & Hr). by split.
Qed.

Lemma job_ok_done job_id job buf ct :
  job_ok job_id job -> UpscaleJob.status job = JobStatus.processing ->
  job_ok job_id (foldl setattr job (kwargs_done buf ct)).
Proof.
  destruct job as [i s p e r c]. intros [Hid Hs] Hq. cbn in *. subst s.
  destruct Hs as (_ & He & Hr). split; [done|]. cbn.
  split; [done|]. split; [done|]. by split; eexists.
Qed.

Lemma job_ok_error job_id job exc :
  job_ok job_id job -> UpscaleJob.status job = JobStatus.processing ->
  job_ok job_id (foldl setattr job (kwargs_error exc)).
Proof.
  destruct job as [i s p e r c]. intros [Hid Hs] Hq. cbn in *. subst s.
  destruct Hs as (Hp & He & Hr). split; [done|]. cbn.
  split; [done|]. split; [by eexists|done].
Qed.

Lemma thread_ids_lookup ts i t p :
  ts !! i = Some (t, p) -> thread_ids ts !! i = Some (t_job_id t).
Proof. intros Hi. unfold thread_ids. by rewrite list_lookup_fmap, Hi. Qed.

Lemma thread_ids_insert ts i t p p' :
  ts !! i = Some (t, p) -> thread_ids (<[i := (t, p')]> ts) = thread_ids ts.
Proof.
  intros Hi. unfold thread_ids. rewrite list_fmap_insert. cbn.
  apply list_insert_id. by rewrite list_lookup_fmap, Hi.
Qed.

(** A thread's registry update keeps the invariant when it takes the
    thread's job from the state of one phase to the state of the next. *)
Lemma invariant_thread_update w i t p p' kwargs :
  invariant w ->
  threads w !! i = Some (t, p) ->
  (forall job, job_ok (t_job_id t) job -> phase_matches p (UpscaleJob.status job) ->
     job_ok (t_job_id t) (foldl setattr job kwargs) /\
     phase_matches p' (UpscaleJob.status (foldl setattr job kwargs))) ->
  invariant (set_phase i t p' w (JobQueue.update (t_job_id t) kwargs (job_queue w)) kwargs).
Proof.
  intros [Hjobs Hthreads Hdistinct] Hi Hkw.
  destruct (Hthreads _ _ _ Hi) as (job & Hjob & Hphase).
  destruct (Hkw job (Hjobs _ _ Hjob) Hphase) as [Hok' Hphase'].
  split; cbn.
  - intros job_id job0 Hget.
    destruct (decide (job_id = t_job_id t)) as [->|Hne].
    + rewrite (update_known _ _ _ _ Hjob) in Hget. by simplify_eq.
    + rewrite update_other in Hget by done. by apply Hjobs.
  - intros k tk pk Hk.
    destruct (decide (k = i)) as [->|Hne].
    + rewrite list_lookup_insert_eq in Hk by (by eapply lookup_lt_Some).
      simplify_eq. eexists. split; [by apply update_known|done].
    + rewrite list_lookup_insert_ne in Hk by done.
      destruct (Hthreads _ _ _ Hk) as (jobk & Hjobk & Hphasek).
      exists jobk. split; [|done].
      rewrite update_other; [done|]. intros Heq.
      apply Hne. eapply NoDup_lookup; [exact Hdistinct| |].
      * by eapply thread_ids_lookup.
      * rewrite Heq. by eapply thread_ids_lookup.
  - by erewrite thread_ids_insert.
Qed.

Section service_invariant.
Context `{TensorFlow}.

(** [POST /job] either rejects the request and changes nothing, or creates
    the queued job and starts its thread. *)
Lemma create_upscale_job_cases uuid4_hex file factor denoise use_tfhub w :
  (exists detail,
     create_upscale_job uuid4_hex file factor denoise use_tfhub w
     = (Raise (HTTPException 400 detail), w)) \/
  (exists factor',
     create_upscale_job uuid4_hex file factor denoise use_tfhub w
     = (Ok (JobCreateResponse uuid4_hex JobStatus.queued),
        {| job_queue :=
             {| JobQueue._jobs :=
                  <[uuid4_hex := UpscaleJob.new uuid4_hex]>
                    (JobQueue._jobs (job_queue w)) |};
           threads := threads w ++
             [({| t_job_id := uuid4_hex; t_data := file; t_factor := factor';
                  t_denoise := denoise; t_use_tfhub := use_tfhub |}, Spawned)];
           update_calls := update_calls w |})).
Proof.
  unfold create_upscale_job, lift, job_queue_create, job_queue_get, Thread_start,
    mbind, M_bind, mret, M_ret.
  destruct use_tfhub; [destruct TFHUB_AVAILABLE|destruct (factor_not_in_2_4_8 factor)];
    cbn; try (left; by eexists).
  all: right; eexists; unfold JobQueue.get; cbn;
    by rewrite lookup_insert_eq.
Qed.

Lemma invariant_step w w' : invariant w -> step w w' -> invariant w'.
Proof.
  intros Hinv Hstep. destruct Hstep as [w uuid file factor denoise use_tfhub Hfresh|w i t Hi|w i t Hi].
  - destruct (create_upscale_job_cases uuid file factor denoise use_tfhub w)
      as [[detail ->]|[factor' ->]]; [done|]. cbn.
    destruct Hinv as [Hjobs Hthreads Hdistinct].
    assert (Hold : forall k tk pk, threads w !! k = Some (tk, pk) -> t_job_id tk ≠ uuid).
    { intros k tk pk Hk Heq. destruct (Hthreads _ _ _ Hk) as (job & Hjob & _).
      rewrite Heq in Hjob. congruence. }
    split; cbn.
    + intros job_id job. unfold JobQueue.get. cbn.
      destruct (decide (job_id = uuid)) as [->|Hne].
      * rewrite lookup_insert_eq. intros [= <-]. by repeat split.
      * rewrite lookup_insert_ne by done. apply Hjobs.
    + intros k tk pk Hk. apply lookup_app_Some in Hk as [Hk|[_ Hk]].
      * destruct (Hthreads _ _ _ Hk) as (job & Hjob & Hphase).
        exists job. split; [|done]. unfold JobQueue.get. cbn.
        rewrite lookup_insert_ne; [done|]. intros Heq. by eapply (Hold k tk pk).
      * apply list_lookup_singleton_Some in Hk as [_ Hk]. simplify_eq. cbn.
        eexists. split; [unfold JobQueue.get; cbn; by rewrite lookup_insert_eq|done].
    + unfold thread_ids. rewrite fmap_app. apply NoDup_app. split; [done|]. split.
      * intros x Hx Hx'. cbn in Hx'. apply list_elem_of_singleton in Hx'. subst x.
        apply list_elem_of_fmap in Hx as ([tk pk] & Heq & Hin).
        apply list_elem_of_lookup in Hin as [k Hk]. cbn in Heq.
        by eapply (Hold k tk pk).
      * cbn. apply NoDup_singleton.
  - eapply invariant_thread_update; [done..|].
    intros job Hok Hphase. cbn in Hphase. split.
    + by apply job_ok_processing.
    + by destruct job.
  - eapply invariant_thread_update; [done..|].
    intros job Hok Hphase. cbn in Hphase. unfold kwargs_terminal.
    destruct (run_pipeline _ _ _ _) as [[buf ct]|exc]; split.
    + by apply job_ok_done.
    + by destruct job.
    + by apply job_ok_error.
    + by destruct job.
Qed.

Lemma invariant_init : invariant World0.
Proof.
  split; cbn.
  - intros job_id job. unfold JobQueue.get. cbn. by rewrite lookup_empty.
  - intros i t p Hi. by rewrite lookup_nil in Hi.
  - apply NoDup_nil_2.
Qed.

Lemma invariant_reachable w : reachable w -> invariant w.
Proof.
  induction 1 as [|w w' _ IH Hstep]; [apply invariant_init|].
  by eapply invariant_step.
Qed.

End service_invariant.

(** ** Jobs over the life of the service *)

Section lifecycle.
Context `{TensorFlow}.

(** The two steps of a started thread, one after the other, do to the
    registry what [_process_job] does with the thread's arguments. *)
Lemma thread_steps_are_process_job w i t :
  threads w !! i = Some (t, Spawned) ->
  let w1 := set_phase i t Working w
              (JobQueue.update (t_job_id t) kwargs_processing (job_queue w))
              kwargs_processing in
  let w2 := set_phase i t Finished w1
              (JobQueue.update (t_job_id t) (kwargs_terminal t) (job_queue w1))
              (kwargs_terminal t) in
  let run := _process_job (t_job_id t) (t_data t) (t_factor t) (t_denoise t)
               (t_use_tfhub t) w in
  step w w1 /\ step w1 w2 /\
  job_queue w2 = job_queue run.2 /\ update_calls w2 = update_calls run.2.
Proof.
  intros Hi w1 w2 run. split; [by apply step_begin|]. split.
  - apply step_end. unfold w1, set_phase. cbn.
    apply list_lookup_insert_eq. by eapply lookup_lt_Some.
  - unfold run. rewrite process_job_unfold. destruct t. cbn.
    by rewrite <- app_assoc.
Qed.

Lemma absent_not_present job :
  (error_absent job -> ~ error_present job) /\
  (result_absent job -> ~ result_present job).
Proof.
  unfold error_absent, error_present, result_absent, result_present.
  split.
  - intros -> [e He]. discriminate.
  - intros [-> _] [[b Hb] _]. discriminate.
Qed.


Lemma step_progress w w' job_id job :
  invariant w -> step w w' ->
  JobQueue.get job_id (job_queue w) = Some job ->
  exists job', JobQueue.get job_id (job_queue w') = Some job' /\
               progress_le (UpscaleJob.progress job) (UpscaleJob.progress job').
Proof.
  intros Hinv Hstep Hget.
  pose proof (inv_jobs _ Hinv _ _ Hget) as Hok.
  destruct (job_ok_progress _ _ Hok) as (_ & _ & Hrefl).
  destruct Hstep as [w uuid file factor denoise use_tfhub Hfresh|w i t Hi|w i t Hi].
  - destruct (create_upscale_job_cases uuid file factor denoise use_tfhub w)
      as [[detail ->]|[factor' ->]]; cbn; [by exists job|].
    exists job. split; [|done]. unfold JobQueue.get. cbn.
    rewrite lookup_insert_ne; [done|]. intros <-. congruence.
  - cbn. destruct (decide (job_id = t_job_id t)) as [->|Hne].
    + destruct (inv_threads _ Hinv _ _ _ Hi) as (job0 & Hjob0 & Hphase).
      simplify_eq. cbn in Hphase. eexists. split; [by apply update_known|].
      destruct Hok as [_ Hs]. rewrite Hphase in Hs. destruct Hs as (Hp & _).
      destruct job; cbn in *. subst. by vm_compute.
    + exists job. split; [|done]. by rewrite update_other.
  - cbn. destruct (decide (job_id = t_job_id t)) as [->|Hne].
    + destruct (inv_threads _ Hinv _ _ _ Hi) as (job0 & Hjob0 & Hphase).
      simplify_eq. cbn in Hphase. eexists. split; [by apply update_known|].
      destruct Hok as [_ Hs]. rewrite Hphase in Hs. destruct Hs as (Hp & _).
      unfold kwargs_terminal.
      destruct (run_pipeline _ _ _ _) as [[buf ct]|exc];
        destruct job; cbn in *; subst; by vm_compute.
    + exists job. split; [|done]. by rewrite update_other.
Qed.

(** C3.  In every state the service can reach, the progress of every job
    is between 0.0 and 1.0, and no step of the service lowers the progress
    of a job.  The runner's first update stores the status [processing]
    together with the progress 0.05, which is above 0 and below 1; an
    update of the runner that stores the status [done] stores the progress
    1.0 with it. *)
Theorem progress_bounded_monotone (w : World) :
  reachable w ->
  (forall job_id job, JobQueue.get job_id (job_queue w) = Some job ->
     progress_le 0 (UpscaleJob.progress job) /\
     progress_le (UpscaleJob.progress job) 1) /\
  (forall w' job_id job, step w w' ->
     JobQueue.get job_id (job_queue w) = Some job ->
     exists job', JobQueue.get job_id (job_queue w') = Some job' /\
       progress_le (UpscaleJob.progress job) (UpscaleJob.progress job')) /\
  (forall job_id data factor denoise use_tfhub, exists last,
     update_calls (_process_job job_id data factor denoise use_tfhub w).2 =
       (update_calls w ++
          [(job_id, [kw_status JobStatus.processing; kw_progress 0.05]);
           (job_id, last)])%list /\
     progress_lt 0 0.05 /\ progress_lt 0.05 1 /\
     (kw_status JobStatus.processing ∉ last) /\
     (kw_status JobStatus.done ∈ last -> kw_progress 1.0 ∈ last) /\
     (forall p, kw_progress p ∈ last -> p = 1.0%float)).
Proof.
  intros Hreach. pose proof (invariant_reachable _ Hreach) as Hinv.
  split; [|split].
  - intros job_id job Hget.
    destruct (job_ok_progress _ _ (inv_jobs _ Hinv _ _ Hget)) as (Hlo & Hhi & _).
    by split.
  - intros w' job_id job Hstep Hget. by eapply step_progress.
  - intros job_id data factor denoise use_tfhub.
    pose proof (process_job_unfold job_id data factor denoise use_tfhub w) as Hrun.
    cbn zeta in Hrun. rewrite Hrun. cbn. eexists. split; [done|].
    split; [by vm_compute|]. split; [by vm_compute|].
    unfold kwargs_terminal. cbn.
    destruct (run_pipeline _ _ _ _) as [[buf ct]|exc]; unfold kwargs_done, kwargs_error.
    + split; [|split].
      * intros Hin. repeat (apply elem_of_cons in Hin as [Hin|Hin]; [discriminate|]).
        by apply not_elem_of_nil in Hin.
      * intros _. apply elem_of_cons. right. apply elem_of_cons. by left.
      * intros p Hin.
        repeat (apply elem_of_cons in Hin as [Hin|Hin]; [by simplify_eq|]).
        by apply not_elem_of_nil in Hin.
    + split; [|split].
      * intros Hin. repeat (apply elem_of_cons in Hin as [Hin|Hin]; [discriminate|]).
        by apply not_elem_of_nil in Hin.
      * intros Hin. repeat (apply elem_of_cons in Hin as [Hin|Hin]; [discriminate|]).
        by apply not_elem_of_nil in Hin.
      * intros p Hin.
        repeat (apply elem_of_cons in Hin as [Hin|Hin]; [discriminate|]).
        by apply not_elem_of_nil in Hin.
Qed.

End lifecycle.

(** ** The scenario, step by step *)

Module ScenarioFacts.
Import Reference Scenario.

Lemma reachable_submitted : reachable (H0 := no_tensorflow) submitted.
Proof.
  eapply reachable_step; [apply reachable_init|].
  by apply (step_submit (H0 := no_tensorflow) World0 "job1" (png 100 100) 2 false false).
Qed.

Lemma step_submitted_working : step (H0 := no_tensorflow) submitted working.
Proof. by apply (step_begin (H0 := no_tensorflow) submitted 0%nat thread1). Qed.

Lemma reachable_working : reachable (H0 := no_tensorflow) working.
Proof.
  eapply reachable_step; [apply reachable_submitted|apply step_submitted_working].
Qed.

Lemma step_working_finished : step (H0 := no_tensorflow) working finished.
Proof. by apply (step_end (H0 := no_tensorflow) working 0%nat thread1). Qed.

Lemma reachable_finished : reachable (H0 := no_tensorflow) finished.
Proof.
  eapply reachable_step; [apply reachable_working|apply step_working_finished].
Qed.

Lemma get_submitted : JobQueue.get "job1" (job_queue submitted) = Some job_queued.
Proof. by vm_compute. Qed.

Lemma get_working : JobQueue.get "job1" (job_queue working) = Some job_processing.
Proof. by vm_compute. Qed.

Lemma get_finished : JobQueue.get "job1" (job_queue finished) = Some job_done.
Proof. by vm_compute. Qed.

End ScenarioFacts.


(** The progress of the scenario's job while its thread is working. *)
Lemma progress_bounded_monotone_witness :
  (progress_le 0 (UpscaleJob.progress Scenario.job_processing) /\
   progress_le (UpscaleJob.progress Scenario.job_processing) 1) /\
  exists job', JobQueue.get "job1" (job_queue Scenario.finished) = Some job' /\
    progress_le (UpscaleJob.progress Scenario.job_processing)
                (UpscaleJob.progress job').
Proof.
  destruct (progress_bounded_monotone (H0 := Reference.no_tensorflow)
              Scenario.working ScenarioFacts.reachable_working) as (Hb & Hm & _).
  split.
  - exact (Hb "job1" Scenario.job_processing ScenarioFacts.get_working).
  - exact (Hm Scenario.finished "job1" Scenario.job_processing
             ScenarioFacts.step_working_finished ScenarioFacts.get_working).
Defined.

(** [update] of the scenario's queued job, and of an id nobody created. *)
Lemma update_noop_or_merge_witness :
  JobQueue.update "nobody" kwargs_processing (job_queue Scenario.submitted)
  = job_queue Scenario.submitted /\
  exists job',
    JobQueue.get "job1"
      (JobQueue.update "job1" kwargs_processing (job_queue Scenario.submitted))
    = Some job' /\
    (forall kw, kw ∈ kwargs_processing -> getattr job' (kw_name kw) = Some kw) /\
    (forall name, name ∉ kw_name <$> kwargs_processing ->
       getattr job' name = getattr Scenario.job_queued name).
Proof.
  split.
  - destruct (update_noop_or_merge Scenario.submitted "nobody" kwargs_processing)
      as (_ & Hnone & _).
    apply Hnone. by vm_compute.
  - destruct (update_noop_or_merge Scenario.submitted "job1" kwargs_processing)
      as (_ & _ & Hsome & _).
    apply (Hsome Scenario.job_queued ScenarioFacts.get_submitted).
    unfold kwargs_processing. cbn.
    apply NoDup_cons. split; [|apply NoDup_singleton].
    intros Hin. apply list_elem_of_singleton in Hin. discriminate.
Defined.

(** ** The read endpoints *)

(** C6.  For a job the registry holds whose status is not [done],
    [GET /job/{id}/result] returns (it does not raise) the response 409
    "job not completed", which carries no artifact and differs from what an
    unknown id gets, the raised 404 "job not found".  The registry is left
    as it was.  The artifact is streamed when the status is [done], and only
    then. *)
Theorem result_not_ready_is_distinct (w : World) (job_id : string) :
  (forall job, JobQueue.get job_id (job_queue w) = Some job ->
     UpscaleJob.status job ≠ JobStatus.done ->
     get_job_result job_id w = (Ok (JSONResponse 409 "job not completed"), w)) /\
  (JobQueue.get job_id (job_queue w) = None ->
     get_job_result job_id w = (Raise (HTTPException 404 "job not found"), w)) /\
  (Ok (JSONResponse 409 "job not completed")
   ≠ Raise (HTTPException 404 "job not found")) /\
  (forall body media_type, JSONResponse 409 "job not completed"
                           ≠ StreamingResponse body media_type) /\
  (forall job, JobQueue.get job_id (job_queue w) = Some job ->
     UpscaleJob.status job = JobStatus.done ->
     get_job_result job_id w =
       (Ok (StreamingResponse (BytesIO (UpscaleJob.result_bytes job))
                              (UpscaleJob.content_type job)), w)) /\
  (forall body media_type w',
     get_job_result job_id w = (Ok (StreamingResponse body media_type), w') ->
     exists job, JobQueue.get job_id (job_queue w) = Some job /\
                 UpscaleJob.status job = JobStatus.done /\
                 body = BytesIO (UpscaleJob.result_bytes job)).
Proof.
  unfold get_job_result, job_queue_get, lift, mbind, M_bind, mret, M_ret.
  repeat split.
  - intros job -> Hs. cbn. by case_decide.
  - by intros ->.
  - discriminate.
  - discriminate.
  - intros job -> Hs. cbn. case_decide; [done|]. done.
  - intros body media_type w'.
    destruct (JobQueue.get job_id (job_queue w)) as [job|]; cbn; [|discriminate].
    case_decide as Hs; [discriminate|]. intros [= <- <- <-].
    exists job. split; [done|]. split; [|done].
    by destruct (decide (UpscaleJob.status job = JobStatus.done)).
Qed.

(** While the scenario's job is processing, its result is not ready. *)
Lemma result_not_ready_is_distinct_witness :
  get_job_result "job1" Scenario.working
  = (Ok (JSONResponse 409 "job not completed"), Scenario.working) /\
  get_job_result "nobody" Scenario.working
  = (Raise (HTTPException 404 "job not found"), Scenario.working) /\
  get_job_result "job1" Scenario.finished
  = (Ok (StreamingResponse (Reference.png 200 200) (Some "image/png")),
     Scenario.finished).
Proof.
  split; [|split].
  - destruct (result_not_ready_is_distinct Scenario.working "job1") as (Hnot & _).
    by apply (Hnot Scenario.job_processing ScenarioFacts.get_working).
  - destruct (result_not_ready_is_distinct Scenario.working "nobody")
      as (_ & Hnone & _).
    apply Hnone. by vm_compute.
  - destruct (result_not_ready_is_distinct Scenario.finished "job1")
      as (_ & _ & _ & _ & Hdone & _).
    by apply (Hdone Scenario.job_done ScenarioFacts.get_finished).
Defined.

(** ** Validation at submission *)

Section validation.
Context `{TensorFlow}.

(** The flag of [upscaling.py] is set whatever the runtime holds: the
    service module handles the failure of its own imports, so importing it
    never raises. *)
Lemma TFHUB_AVAILABLE_always : TFHUB_AVAILABLE = true.
Proof.
  unfold TFHUB_AVAILABLE, TFHubUpscaleService.import_module.
  by destruct TFHubUpscaleService.import_tensorflow.
Qed.

(** The flag of the service module follows the runtime. *)
Lemma TF_HUB_AVAILABLE_runtime :
  TFHubUpscaleService.TF_HUB_AVAILABLE = tensorflow_importable.
Proof.
  unfold TFHubUpscaleService.TF_HUB_AVAILABLE, TFHubUpscaleService.import_tensorflow.
  by destruct tensorflow_importable.
Qed.

(** A factor outside 2, 4, 8 for the filter backend is rejected by
    [POST /job] before anything is created. *)
Lemma create_upscale_job_rejects_factor uuid4_hex file factor denoise w :
  factor_not_in_2_4_8 factor = true ->
  create_upscale_job uuid4_hex file factor denoise false w
  = (Raise (HTTPException 400 "factor must be 2, 4, or 8 for PIL mode"), w).
Proof.
  intros Hf. unfold create_upscale_job, lift, mbind, M_bind. by rewrite Hf.
Qed.

(** The model backend is accepted by [POST /job] in every runtime. *)
Lemma create_upscale_job_accepts_tfhub uuid4_hex file factor denoise w :
  (create_upscale_job uuid4_hex file factor denoise true w).1
  = Ok (JobCreateResponse uuid4_hex JobStatus.queued) /\
  JobQueue.get uuid4_hex
    (job_queue (create_upscale_job uuid4_hex file factor denoise true w).2)
  = Some (UpscaleJob.new uuid4_hex).
Proof.
  unfold create_upscale_job, lift, job_queue_create, job_queue_get, Thread_start,
    mbind, M_bind, mret, M_ret.
  rewrite TFHUB_AVAILABLE_always. cbn. unfold JobQueue.get. cbn.
  by rewrite lookup_insert_eq.
Qed.

(** [POST /process] rejects a factor outside 2, 4, 8 before it decodes the
    upload or calls the backend. *)
Lemma upscale_image_rejects_factor file factor denoise :
  factor_not_in_2_4_8 factor = true ->
  upscale_image file factor denoise
  = Raise (HTTPException 400 "factor must be 2, 4, or 8").
Proof. intros Hf. unfold upscale_image. by rewrite Hf. Qed.

(** [POST /download] hands any factor to the backend. *)
Lemma upscale_and_download_any_factor file factor denoise img :
  Image_open file = Ok img ->
  upscale_and_download file factor denoise =
    upscaled ← UpscaleService.upscale
      {| UpscaleRequest.image := img; UpscaleRequest.factor := factor;
         UpscaleRequest.denoise := denoise |};
    buf ← Image_save upscaled (out_format_of img);
    Ok (StreamingResponse buf (Some ("image/" ++ lower (out_format_of img))%string)).
Proof. intros Hopen. unfold upscale_and_download, open_or_400. by rewrite Hopen. Qed.

End validation.

(** C5, at a failing input.  In a runtime without TensorFlow the model
    backend is unavailable ([TF_HUB_AVAILABLE] is false), yet [POST /job]
    with [use_tfhub] set is not rejected: the flag [TFHUB_AVAILABLE] it
    tests is true, the job is created and its thread started, and the
    unavailability shows only later, as the error of the job. *)
Theorem tfhub_unavailable_job_is_created :
  let tf := Reference.no_tensorflow in
  let req := create_upscale_job (H0 := tf) "job1" (Reference.png 100 100) 4 false true World0 in
  tensorflow_importable (TensorFlow := tf) = false /\
  TFHubUpscaleService.TF_HUB_AVAILABLE (H0 := tf) = false /\
  TFHUB_AVAILABLE (H0 := tf) = true /\
  req.1 = Ok (JobCreateResponse "job1" JobStatus.queued) /\
  JobQueue.get "job1" (job_queue req.2) = Some (UpscaleJob.new "job1") /\
  threads req.2 =
    [({| t_job_id := "job1"; t_data := Reference.png 100 100; t_factor := 4;
         t_denoise := false; t_use_tfhub := true |}, Spawned)] /\
  JobQueue.get "job1"
    (job_queue (_process_job (H0 := tf) "job1" (Reference.png 100 100) 4 false true req.2).2)
  = Some {| UpscaleJob.id := "job1"; UpscaleJob.status := JobStatus.error;
            UpscaleJob.progress := 0.05;
            UpscaleJob.error := Some "TensorFlow Hub not available";
            UpscaleJob.result_bytes := None; UpscaleJob.content_type := None |}.
Proof.
  cbn zeta. split; [done|]. do 5 (split; [by vm_compute|]). by vm_compute.
Qed.

(** C7, at a failing input.  [POST /download] with factor 3 and a 10 x 10
    PNG is not rejected: the backend runs and a 30 x 30 image is streamed
    back.  [POST /process] rejects the same request. *)
Theorem download_skips_factor_validation :
  factor_not_in_2_4_8 3 = true /\
  upscale_and_download (H := Reference.pil) (Reference.png 10 10) 3 false
  = Ok (StreamingResponse (Reference.png 30 30) (Some "image/png")) /\
  upscale_image (H := Reference.pil) (Reference.png 10 10) 3 false
  = Raise (HTTPException 400 "factor must be 2, 4, or 8").
Proof. split; [done|]. split; by vm_compute. Qed.

(** ** The size computed by [clamp_large_image] *)

Section clamp_arith.
Local Open Scope R_scope.

Lemma int_of_float_bounds x :
  0 <= x -> IZR (int_of_float x) <= x < IZR (int_of_float x) + 1.
Proof.
  intros Hx. unfold int_of_float.
  destruct (Rle_dec 0 x); [apply Zfloor_bound|contradiction].
Qed.

Lemma int_of_float_eq x n :
  (0 <= n)%Z -> IZR n <= x < IZR n + 1 -> int_of_float x = n.
Proof.
  intros Hn Hx. unfold int_of_float.
  destruct (Rle_dec 0 x) as [_|Hneg]; [by apply Zfloor_eq|].
  apply IZR_le in Hn. lra.
Qed.

(** The scale is a non-negative number whose square is [m / (w * h)]. *)
Lemma scale_sqr (w h m : Z) :
  (0 < w)%Z -> (0 < h)%Z -> (0 <= m)%Z ->
  let s := sqrt (IZR m / IZR (w * h)) in
  0 <= s /\ s * s * (IZR w * IZR h) = IZR m.
Proof.
  intros Hw Hh Hm s. apply IZR_lt in Hw, Hh. apply IZR_le in Hm.
  assert (Hwh : 0 < IZR w * IZR h) by nra.
  split; [apply sqrt_pos|]. unfold s.
  rewrite sqrt_sqrt.
  - rewrite mult_IZR. field. lra.
  - rewrite mult_IZR. apply Rmult_le_pos; [lra|].
    left. by apply Rinv_0_lt_compat.
Qed.

(** Between consecutive squares: the integer part of a non-negative real
    whose square lies between [q] and [q + 1] is the integer square root of
    [q]. *)
Lemma int_of_float_sqrt x q :
  (0 <= q)%Z -> 0 <= x -> IZR q <= x * x < IZR q + 1 ->
  int_of_float x = Z.sqrt q.
Proof.
  intros Hq Hx [Hlo Hhi].
  pose proof (Z.sqrt_spec q Hq) as [Hs1 Hs2].
  pose proof (Z.sqrt_nonneg q) as Hs0.
  apply int_of_float_eq; [done|].
  set (n := Z.sqrt q) in *.
  assert (Hn1 : IZR n * IZR n <= IZR q) by (rewrite <- mult_IZR; by apply IZR_le).
  assert (Hn2 : IZR q + 1 <= (IZR n + 1) * (IZR n + 1)).
  { rewrite <- (plus_IZR q 1), <- (plus_IZR n 1), <- mult_IZR.
    apply IZR_le. unfold Z.succ in Hs2. lia. }
  apply IZR_le in Hs0. split; nra.
Qed.

Lemma clamp_dim (w h m : Z) :
  (0 < w)%Z -> (0 < h)%Z -> (0 <= m)%Z ->
  int_of_float (IZR w * sqrt (IZR m / IZR (w * h))) = Z.sqrt (w * m / h).
Proof.
  intros Hw Hh Hm.
  destruct (scale_sqr w h m Hw Hh Hm) as [Hs0 Hsq]. cbn zeta in *.
  set (s := sqrt (IZR m / IZR (w * h))) in *.
  assert (Hq : (0 <= w * m / h)%Z) by (apply Z.div_pos; lia).
  pose proof (Z.mul_div_le (w * m) h Hh) as Hd1.
  pose proof (Z.mul_succ_div_gt (w * m) h Hh) as Hd2.
  set (q := (w * m / h)%Z) in *.
  apply IZR_le in Hd1. apply IZR_lt in Hd2.
  unfold Z.succ in Hd2. rewrite !mult_IZR in Hd1. rewrite !mult_IZR, plus_IZR in Hd2.
  apply IZR_lt in Hw, Hh. apply IZR_le in Hm.
  apply int_of_float_sqrt; [done|nra|].
  assert (Hx : IZR w * s * (IZR w * s) * IZR h = IZR w * IZR m) by nra.
  split.
  - apply (Rmult_le_reg_r (IZR h)); [done|]. nra.
  - apply (Rmult_lt_reg_r (IZR h)); [done|]. nra.
Qed.

End clamp_arith.

(** For an image with positive sides the two definitions of the clamped
    size agree. *)
Lemma clamp_new_size_Z_eq (w h m : Z) :
  0 < w -> 0 < h -> 0 <= m ->
  clamp_new_size w h m = clamp_new_size_Z w h m.
Proof.
  intros Hw Hh Hm. unfold clamp_new_size, clamp_new_size_Z. f_equal.
  - by apply clamp_dim.
  - rewrite (Z.mul_comm w h). by apply clamp_dim.
Qed.

(** Over the ceiling, the clamped size is smaller on both sides, holds at
    most [m] pixels, and keeps the proportions up to the truncation of each
    side. *)
Lemma clamp_new_size_bounds (w h m w' h' : Z) :
  0 < w -> 0 < h -> 0 <= m -> m < w * h ->
  clamp_new_size w h m = (w', h') ->
  0 <= w' < w /\ 0 <= h' < h /\ w' * h' <= m /\ - h < w' * h - h' * w < w.
Proof.
  intros Hw Hh Hm Hover Hsz. unfold clamp_new_size in Hsz.
  destruct (scale_sqr w h m Hw Hh Hm) as [Hs0 Hsq]. cbn zeta in *.
  set (s := sqrt (IZR m / IZR (w * h))) in *.
  apply IZR_lt in Hw, Hh, Hover. apply IZR_le in Hm. rewrite mult_IZR in Hover.
  assert (Hwh : (0 < IZR w * IZR h)%R) by nra.
  assert (Hs1 : (s < 1)%R).
  { destruct (Rlt_dec s 1) as [|Hge]; [done|]. apply Rnot_lt_le in Hge.
    assert (1 <= s * s)%R by nra.
    assert (IZR w * IZR h <= s * s * (IZR w * IZR h))%R by nra. lra. }
  assert (Hx1 : (0 <= IZR w * s)%R) by nra.
  assert (Hx2 : (0 <= IZR h * s)%R) by nra.
  pose proof (int_of_float_bounds _ Hx1) as [Hw1 Hw2].
  pose proof (int_of_float_bounds _ Hx2) as [Hh1 Hh2].
  injection Hsz as Hw' Hh'. rewrite Hw' in Hw1, Hw2. rewrite Hh' in Hh1, Hh2.
  assert (Hw0 : (0 <= w')%Z).
  { apply Z.lt_succ_r, lt_IZR. unfold Z.succ. rewrite plus_IZR. lra. }
  assert (Hh0 : (0 <= h')%Z).
  { apply Z.lt_succ_r, lt_IZR. unfold Z.succ. rewrite plus_IZR. lra. }
  pose proof (IZR_le _ _ Hw0) as Hw0r. pose proof (IZR_le _ _ Hh0) as Hh0r.
  repeat split; try done.
  - apply lt_IZR. nra.
  - apply lt_IZR. nra.
  - apply le_IZR. rewrite mult_IZR. nra.
  - apply lt_IZR. rewrite opp_IZR, minus_IZR, !mult_IZR. nra.
  - apply lt_IZR. rewrite minus_IZR, !mult_IZR. nra.
Qed.

(** A side far shorter than the other truncates to zero. *)
Lemma clamp_new_size_zero (w h m : Z) :
  0 < w -> 0 <= m -> w * m < h -> (clamp_new_size w h m).1 = 0.
Proof.
  intros Hw Hm Hh. rewrite clamp_new_size_Z_eq by lia. cbn.
  rewrite Z.div_small by lia. done.
Qed.

(** ** The guard and the enlargement in the two backends *)

Section guard.
Context `{TensorFlow}.

Lemma guard_unfold (img : Image) :
  (if width img * height img >? 4096 * 4096
   then clamp_large_image img (4096 * 4096) else Ok img)
  = max_pixel_guard img.
Proof.
  unfold max_pixel_guard, clamp_large_image, guarded_size, size.
  change max_pixels with (4096 * 4096). cbn [fst snd].
  by destruct (width img * height img >? 4096 * 4096).
Qed.

Lemma UpscaleService_upscale_guard (img : Image) factor denoise :
  UpscaleService.upscale
    {| UpscaleRequest.image := img; UpscaleRequest.factor := factor;
       UpscaleRequest.denoise := denoise |}
  = img' ← max_pixel_guard img;
    UpscaleService._real_esrgan_upscale img' factor denoise.
Proof. unfold UpscaleService.upscale, size. cbn. by rewrite guard_unfold. Qed.

Lemma TFHubUpscaleService_upscale_guard (img : Image) factor denoise :
  TFHubUpscaleService.upscale
    {| TFHubUpscaleRequest.image := img; TFHubUpscaleRequest.factor := factor;
       TFHubUpscaleRequest.denoise := denoise |}
  = if negb TFHubUpscaleService.TF_HUB_AVAILABLE then
      Raise (PyException "ImportError" "TensorFlow Hub not available")
    else
      img' ← max_pixel_guard img;
      upscaled_img ← esrgan_inference img';
      if denoise then
        upscaled_img ← Image_filter upscaled_img (GaussianBlur 0.5);
        Image_filter upscaled_img SHARPEN
      else Ok upscaled_img.
Proof.
  unfold TFHubUpscaleService.upscale, size. cbn.
  destruct (negb _); [done|]. by rewrite guard_unfold.
Qed.

(** The synchronous download and the runner's pipeline do the same to a
    decodable upload. *)
Lemma download_as_run_pipeline file factor denoise (img : Image) :
  Image_open file = Ok img ->
  upscale_and_download file factor denoise =
    r ← run_pipeline file factor denoise false;
    Ok (StreamingResponse r.1 (Some r.2)).
Proof.
  intros Hopen. unfold upscale_and_download, run_pipeline, open_or_400.
  rewrite Hopen. cbn.
  match goal with
  | |- ?upscale ≫= _ = (?upscale ≫= _) ≫= _ =>
      destruct upscale as [upscaled|exc]; cbn; [|done]
  end.
  by destruct (Image_save upscaled (out_format_of img)).
Qed.

Context `{!PILSizes}.

Lemma max_pixel_guard_size (img img' : Image) :
  max_pixel_guard img = Ok img' -> size img' = guarded_size (size img).
Proof.
  unfold max_pixel_guard, guarded_size, size. cbn [fst snd].
  destruct (width img * height img >? max_pixels).
  - intros Hr. by apply resize_size in Hr.
  - by intros [= <-].
Qed.

Lemma real_esrgan_upscale_size (img out : Image) factor denoise :
  UpscaleService._real_esrgan_upscale img factor denoise = Ok out ->
  size out = (width img * factor, height img * factor).
Proof.
  unfold UpscaleService._real_esrgan_upscale, size at 1. cbn.
  destruct (Image_resize _ _ _) as [upscaled|] eqn:E1; cbn; [|discriminate].
  destruct (Image_convert _ _) as [gray|] eqn:E2; cbn; [|discriminate].
  destruct (Image_filter gray _) as [edges|] eqn:E3; cbn; [|discriminate].
  destruct (Image_filter upscaled _) as [sharpened|] eqn:E4; cbn; [|discriminate].
  destruct (ImageEnhance_enhance Contrast _ _) as [contrast|] eqn:E5; cbn; [|discriminate].
  destruct (ImageEnhance_enhance Color _ _) as [color|] eqn:E6; cbn; [|discriminate].
  apply resize_size in E1. apply filter_size in E4.
  apply enhance_size in E5, E6.
  destruct denoise.
  - destruct (Image_filter color _) as [smoothed|] eqn:E7; cbn; [|discriminate].
    intros E8. apply filter_size in E7, E8. congruence.
  - intros E8. apply filter_size in E8. congruence.
Qed.

Lemma upscale_size (img out : Image) factor denoise :
  UpscaleService.upscale
    {| UpscaleRequest.image := img; UpscaleRequest.factor := factor;
       UpscaleRequest.denoise := denoise |} = Ok out ->
  size out = ((guarded_size (size img)).1 * factor,
              (guarded_size (size img)).2 * factor).
Proof.
  rewrite UpscaleService_upscale_guard.
  destruct (max_pixel_guard img) as [img'|] eqn:Eg; cbn; [|discriminate].
  intros Hout. apply real_esrgan_upscale_size in Hout.
  apply max_pixel_guard_size in Eg. rewrite <- Eg. by unfold size in *.
Qed.

End guard.

Lemma ref_resize_ok (img : Reference.RefImage) (a b : Z) r :
  1 <= a -> 1 <= b ->
  Reference.ref_resize img (a, b) r
  = Ok {| Reference.r_width := a; Reference.r_height := b;
          Reference.r_mode := Reference.r_mode img; Reference.r_format := None |}.
Proof.
  intros Ha Hb. unfold Reference.ref_resize. cbn [fst snd].
  replace ((a <? 1) || (b <? 1)) with false; [done|].
  symmetry. apply orb_false_iff. split; apply Z.ltb_ge; lia.
Qed.

Lemma Reference_real_esrgan_upscale (img : @Image Reference.pil) factor denoise :
  1 <= width img * factor -> 1 <= height img * factor ->
  UpscaleService._real_esrgan_upscale img factor denoise
  = Ok {| Reference.r_width := width img * factor;
          Reference.r_height := height img * factor;
          Reference.r_mode := mode img; Reference.r_format := None |}.
Proof.
  intros Hw Hh. unfold UpscaleService._real_esrgan_upscale, size.
  cbn [width height mode Reference.pil Image_resize] in *.
  rewrite ref_resize_ok by done. by destruct denoise.
Qed.

(** With the stand-in collaborators the filter backend returns whenever
    the guarded size and the enlarged size are at least one pixel. *)
Lemma Reference_upscale_returns (img : @Image Reference.pil) factor denoise a b :
  guarded_size (size img) = (a, b) ->
  1 <= a -> 1 <= b -> 1 <= a * factor -> 1 <= b * factor ->
  UpscaleService.upscale
    {| UpscaleRequest.image := img; UpscaleRequest.factor := factor;
       UpscaleRequest.denoise := denoise |}
  = Ok {| Reference.r_width := a * factor; Reference.r_height := b * factor;
          Reference.r_mode := Reference.r_mode img; Reference.r_format := None |}.
Proof.
  intros Eg Ha Hb Hfa Hfb.
  rewrite UpscaleService_upscale_guard.
  unfold max_pixel_guard. rewrite Eg.
  unfold guarded_size in Eg.
  destruct (width img * height img >? max_pixels) eqn:Eover.
  - cbn [Image_resize Reference.pil].
    rewrite ref_resize_ok by done. cbn [mbind result_bind].
    by rewrite Reference_real_esrgan_upscale.
  - replace ((size img).1 * (size img).2 >? max_pixels) with false in Eg.
    injection Eg as <- <-. cbn [mbind result_bind].
    by rewrite Reference_real_esrgan_upscale.
Qed.

Lemma over_ceiling_positive (w h : Z) :
  0 <= w -> 0 <= h -> max_pixels < w * h -> 0 < w /\ 0 < h /\ 0 <= max_pixels.
Proof. unfold max_pixels. intros Hw Hh Hover. nia. Qed.

Section sizes.
Context `{TensorFlow} `{!PILSizes}.



End sizes.

(** ** The clamp on concrete sizes *)


(** The same sizes on binary64 floats. *)
Example clamp_binary64_agrees :
  clamp_new_size_binary64 5000 4000 max_pixels = (4579, 3663) /\
  clamp_new_size_binary64 1 16777217 max_pixels = (0, 16777216) /\
  clamp_new_size_binary64 4097 4097 max_pixels = (4096, 4096).
Proof. split; [by vm_compute|]. split; by vm_compute. Qed.



(** [int] truncates toward zero. *)
Lemma int_of_float_truncates (x : R) :
  ((0 <= x -> IZR (int_of_float x) <= x < IZR (int_of_float x) + 1) /\
   (x < 0 -> IZR (int_of_float x) - 1 < x <= IZR (int_of_float x)))%R.
Proof.
  unfold int_of_float. split; intros Hx.
  - destruct (Rle_dec 0 x); [apply Zfloor_bound|contradiction].
  - destruct (Rle_dec 0 x); [lra|apply Zceil_bound].
Qed.

(** C10.  The clamp asks [resize] for the integer parts of width x scale
    and height x scale, with scale the square root of the ceiling over the
    pixel count.  For an image whose height exceeds its width times the
    ceiling -- width 1 and a height above the ceiling, say -- the image is
    over the ceiling, width x scale is below 1, and the width asked for is
    0: the size the clamp computes is not always positive. *)
Theorem clamp_width_can_be_zero `{PIL} (img : Image) (m : Z) :
  0 < width img -> 0 <= m -> width img * m < height img ->
  let scale := sqrt (IZR m / IZR (width img * height img)) in
  m < width img * height img /\
  clamp_new_size (width img) (height img) m =
    (int_of_float (IZR (width img) * scale), int_of_float (IZR (height img) * scale)) /\
  (0 <= IZR (width img) * scale < 1)%R /\
  (clamp_new_size (width img) (height img) m).1 = 0 /\
  ~ 0 < (clamp_new_size (width img) (height img) m).1 /\
  clamp_large_image img m =
    Image_resize img (0, Z.sqrt (height img * m / width img)) BICUBIC.
Proof.
  intros Hw Hm Hh scale.
  assert (Hover : m < width img * height img) by nia.
  assert (Hh0 : 0 < height img) by nia.
  pose proof (clamp_new_size_zero _ _ _ Hw Hm Hh) as Hzero.
  split; [done|]. split; [reflexivity|]. split.
  { destruct (scale_sqr _ _ _ Hw Hh0 Hm) as [Hs0 Hsq]. cbn zeta in *. fold scale in Hs0, Hsq.
    apply IZR_lt in Hw, Hh, Hh0. apply IZR_le in Hm. rewrite mult_IZR in Hh.
    split; [nra|].
    destruct (Rlt_dec (IZR (width img) * scale) 1) as [|Hge]; [done|].
    apply Rnot_lt_le in Hge.
    assert (1 <= IZR (width img) * scale * (IZR (width img) * scale))%R by nra.
    assert (IZR (width img) * scale * (IZR (width img) * scale) * IZR (height img)
            = IZR (width img) * IZR m)%R by nra.
    nra. }
  split; [exact Hzero|]. split; [rewrite Hzero; lia|].
  unfold clamp_large_image.
  replace (width img * height img >? m) with true
    by (symmetry; rewrite Z.gtb_ltb; by apply Z.ltb_lt).
  rewrite clamp_new_size_Z_eq by done. unfold clamp_new_size_Z.
  by rewrite (Z.div_small (width img * m)) by lia.
Qed.

(** A 1 x 16777217 image: one pixel over the ceiling. *)
Lemma clamp_width_can_be_zero_witness :
  max_pixels < 1 * 16777217 /\
  (clamp_new_size 1 16777217 max_pixels).1 = 0 /\
  clamp_large_image (H := Reference.pil) img_1_16777217 max_pixels
  = Reference.ref_resize img_1_16777217 (0, Z.sqrt (16777217 * max_pixels / 1)) BICUBIC.
Proof.
  destruct (clamp_width_can_be_zero (H := Reference.pil) img_1_16777217 max_pixels)
    as (Hover & _ & _ & Hzero & _ & Hresize);
    [by vm_compute|by vm_compute|by vm_compute|].
  split; [exact Hover|]. split; [exact Hzero|exact Hresize].
Defined.

(** What the stand-in's [resize] answers to that size. *)
Example clamp_zero_width_is_refused :
  Reference.ref_resize img_1_16777217 (0, Z.sqrt (16777217 * max_pixels / 1)) BICUBIC
  = Raise (PyException "ValueError" "height and width must be > 0").
Proof. by vm_compute. Qed.

(** * Further properties of the code *)

Local Open Scope list_scope.

(** ** The registry: create, get and update together *)

(** X1.  [create] returns a queued job with progress 0.0 and neither error
    nor result, stores it under its id, so that [get] returns it, and
    leaves every other id as it was; the ids of the registry are the old
    ones and the new one.  An id already held is taken over by the new
    job; otherwise the registry holds one job more. *)
Theorem create_then_get (uuid4_hex : string) (q : JobQueue.t) :
  let job := (JobQueue.create uuid4_hex q).1 in
  let q' := (JobQueue.create uuid4_hex q).2 in
  UpscaleJob.id job = uuid4_hex /\
  UpscaleJob.status job = JobStatus.queued /\
  UpscaleJob.progress job = 0.0%float /\
  error_absent job /\ result_absent job /\
  JobQueue.get uuid4_hex q' = Some job /\
  (forall other, other ≠ uuid4_hex -> JobQueue.get other q' = JobQueue.get other q) /\
  dom (JobQueue._jobs q') = {[uuid4_hex]} ∪ dom (JobQueue._jobs q) /\
  (JobQueue.get uuid4_hex q = None ->
     base.size (JobQueue._jobs q') = S (base.size (JobQueue._jobs q))) /\
  (is_Some (JobQueue.get uuid4_hex q) ->
     base.size (JobQueue._jobs q') = base.size (JobQueue._jobs q)).
Proof.
  cbn. unfold JobQueue.get. cbn.
  split; [done|]. split; [done|]. split; [done|]. split; [done|]. split; [done|].
  split; [apply lookup_insert_eq|]. split.
  { intros other Hne. by apply lookup_insert_ne. }
  split; [apply dom_insert_L|]. split.
  - intros Hnone. by apply map_size_insert_None.
  - intros Hsome. by apply map_size_insert_Some.
Qed.

Lemma create_then_get_witness :
  base.size (JobQueue._jobs (JobQueue.create "job2" (job_queue Scenario.finished)).2)
  = S (base.size (JobQueue._jobs (job_queue Scenario.finished))) /\
  base.size (JobQueue._jobs (JobQueue.create "job1" (job_queue Scenario.finished)).2)
  = base.size (JobQueue._jobs (job_queue Scenario.finished)).
Proof.
  split.
  - apply (create_then_get "job2" (job_queue Scenario.finished)). by vm_compute.
  - apply (create_then_get "job1" (job_queue Scenario.finished)).
    rewrite ScenarioFacts.get_finished. by eexists.
Defined.

(** X2.  Two updates of the same job, one after the other, are one update
    with the keyword arguments of the first followed by those of the
    second; an update without keyword arguments changes nothing. *)
Theorem update_update (q : JobQueue.t) (job_id : string) (k1 k2 : list kwarg) :
  JobQueue.update job_id k2 (JobQueue.update job_id k1 q)
  = JobQueue.update job_id (k1 ++ k2) q /\
  JobQueue.update job_id [] q = q.
Proof.
  unfold JobQueue.update. destruct q as [jobs]. cbn.
  destruct (jobs !! job_id) as [job|] eqn:Hjob; cbn.
  - rewrite lookup_insert_eq, insert_insert_eq, foldl_app. split; [done|].
    f_equal. by apply insert_id.
  - by rewrite Hjob.
Qed.

(** X3.  Updates of two different jobs can be made in either order. *)
Theorem update_commute (q : JobQueue.t) (id1 id2 : string) (k1 k2 : list kwarg) :
  id1 ≠ id2 ->
  JobQueue.update id1 k1 (JobQueue.update id2 k2 q)
  = JobQueue.update id2 k2 (JobQueue.update id1 k1 q).
Proof.
  intros Hne. unfold JobQueue.update. destruct q as [jobs]. cbn.
  destruct (jobs !! id1) as [job1|] eqn:H1, (jobs !! id2) as [job2|] eqn:H2; cbn.
  - rewrite lookup_insert_ne by done. rewrite H1. cbn.
    rewrite lookup_insert_ne by done. rewrite H2. cbn.
    f_equal. by apply insert_insert_ne.
  - rewrite H1. cbn. rewrite lookup_insert_ne by done. by rewrite H2.
  - rewrite lookup_insert_ne by done. rewrite H1. cbn. by rewrite H2.
  - by rewrite H1, H2.
Qed.

Lemma update_commute_witness :
  JobQueue.update "job1" kwargs_processing
    (JobQueue.update "job2" kwargs_processing (job_queue Scenario.submitted))
  = JobQueue.update "job2" kwargs_processing
      (JobQueue.update "job1" kwargs_processing (job_queue Scenario.submitted)).
Proof. apply (update_commute (job_queue Scenario.submitted) "job1" "job2"). done. Defined.

(** X4.  [update] never adds or removes a job: the ids of the registry stay
    the same, also when the keyword arguments store another [id] in the
    job, which is then still found under its old id only. *)
Theorem update_keeps_ids (q : JobQueue.t) (job_id : string) (kwargs : list kwarg) :
  dom (JobQueue._jobs (JobQueue.update job_id kwargs q)) = dom (JobQueue._jobs q) /\
  (forall other, is_Some (JobQueue.get other (JobQueue.update job_id kwargs q))
                 <-> is_Some (JobQueue.get other q)) /\
  (forall job new_id, JobQueue.get job_id q = Some job ->
     JobQueue.get new_id q = None ->
     JobQueue.get new_id (JobQueue.update job_id [kw_id new_id] q) = None /\
     UpscaleJob.id <$> JobQueue.get job_id (JobQueue.update job_id [kw_id new_id] q)
     = Some new_id).
Proof.
  assert (Hdom : forall k, dom (JobQueue._jobs (JobQueue.update job_id k q))
                           = dom (JobQueue._jobs q)).
  { intros k. unfold JobQueue.update.
    destruct (JobQueue._jobs q !! job_id) as [job|] eqn:Hjob; [|done]. cbn.
    rewrite dom_insert_L. apply elem_of_dom_2 in Hjob.
    apply subseteq_union_1_L. by apply singleton_subseteq_l. }
  split; [apply Hdom|]. split.
  - intros other. unfold JobQueue.get. rewrite <- !elem_of_dom. by rewrite Hdom.
  - intros job new_id Hjob Hnew. split.
    + rewrite update_other; [done|]. intros ->. congruence.
    + rewrite (update_known _ _ _ _ Hjob). by destruct job.
Qed.

Lemma update_keeps_ids_witness :
  JobQueue.get "renamed"
    (JobQueue.update "job1" [kw_id "renamed"] (job_queue Scenario.submitted)) = None /\
  UpscaleJob.id <$> JobQueue.get "job1"
    (JobQueue.update "job1" [kw_id "renamed"] (job_queue Scenario.submitted))
  = Some "renamed".
Proof.
  destruct (update_keeps_ids (job_queue Scenario.submitted) "job1" [])
    as (_ & _ & Hid).
  apply (Hid Scenario.job_queued "renamed" ScenarioFacts.get_submitted).
  by vm_compute.
Defined.

(** ** The running service: what else every step keeps *)

Lemma filter_none {A} (P : A -> Prop) `{!forall x, Decision (P x)} (l : list A) :
  (forall x, x ∈ l -> ~ P x) -> filter P l = [].
Proof.
  induction l as [|x l IH]; intros Hl; [done|].
  rewrite filter_cons_False by (apply Hl; by left).
  apply IH. intros y Hy. apply Hl. by right.
Qed.

Lemma calls_for_set_phase job_id i t p w q kwargs :
  calls_for job_id (set_phase i t p w q kwargs)
  = calls_for job_id w ++ (if decide (t_job_id t = job_id) then [kwargs] else []).
Proof.
  unfold calls_for, set_phase. cbn. rewrite filter_app, fmap_app. f_equal.
  case_decide as Hid.
  - by rewrite filter_cons_True.
  - by rewrite filter_cons_False.
Qed.

Lemma thread_kept (ts : list (Thread * Phase)) i t p p' k tk pk :
  ts !! i = Some (t, p) -> ts !! k = Some (tk, pk) ->
  exists pk', <[i := (t, p')]> ts !! k = Some (tk, pk').
Proof.
  intros Hi Hk. destruct (decide (k = i)) as [->|Hne].
  - simplify_eq. exists p'. apply list_lookup_insert_eq. by eapply lookup_lt_Some.
  - exists pk. by rewrite list_lookup_insert_ne.
Qed.

Lemma thread_before (ts : list (Thread * Phase)) i t p p' k tk pk :
  ts !! i = Some (t, p) -> <[i := (t, p')]> ts !! k = Some (tk, pk) ->
  (k = i /\ tk = t /\ pk = p') \/ (k ≠ i /\ ts !! k = Some (tk, pk)).
Proof.
  intros Hi Hk. destruct (decide (k = i)) as [->|Hne].
  - rewrite list_lookup_insert_eq in Hk by (by eapply lookup_lt_Some).
    left. by simplify_eq.
  - rewrite list_lookup_insert_ne in Hk by done. by right.
Qed.

Lemma distinct_thread_ids w i k t p tk pk :
  invariant w -> threads w !! i = Some (t, p) -> threads w !! k = Some (tk, pk) ->
  k ≠ i -> t_job_id tk ≠ t_job_id t.
Proof.
  intros Hinv Hi Hk Hne Heq. apply Hne.
  eapply NoDup_lookup; [exact (inv_distinct _ Hinv)| |].
  - by eapply thread_ids_lookup.
  - rewrite Heq. by eapply thread_ids_lookup.
Qed.

Section bookkeeping_steps.
Context `{TensorFlow}.

Lemma bookkeeping_thread_update w i t p p' kwargs :
  invariant w -> bookkeeping w ->
  threads w !! i = Some (t, p) ->
  calls_by_phase t p ++ [kwargs] = calls_by_phase t p' ->
  (p' = Finished ->
   forall job, JobQueue.get (t_job_id t) (job_queue w) = Some job ->
     match run_pipeline (t_data t) (t_factor t) (t_denoise t) (t_use_tfhub t) with
     | Ok (buf, content_type) =>
         UpscaleJob.status (foldl setattr job kwargs) = JobStatus.done /\
         UpscaleJob.result_bytes (foldl setattr job kwargs) = Some buf /\
         UpscaleJob.content_type (foldl setattr job kwargs) = Some content_type
     | Raise exc =>
         UpscaleJob.status (foldl setattr job kwargs) = JobStatus.error /\
         UpscaleJob.error (foldl setattr job kwargs) = Some (str exc)
     end) ->
  p ≠ Finished ->
  bookkeeping (set_phase i t p' w (JobQueue.update (t_job_id t) kwargs (job_queue w)) kwargs).
Proof.
  intros Hinv [Hthread Hcalls Howner Hout Hfactor] Hi Hnext Hfin Hp.
  split.
  - intros job_id job Hget. cbn in *.
    assert (Hsome : is_Some (JobQueue.get job_id (job_queue w))).
    { apply (update_keeps_ids (job_queue w) (t_job_id t) kwargs). by eexists. }
    destruct Hsome as [job0 Hjob0].
    destruct (Hthread _ _ Hjob0) as (k & tk & pk & Hk & Hid).
    destruct (thread_kept _ i t p p' k tk pk Hi Hk) as [pk' Hk'].
    by exists k, tk, pk'.
  - intros k tk pk Hk. cbn in Hk.
    rewrite calls_for_set_phase.
    destruct (thread_before _ _ _ _ _ _ _ _ Hi Hk) as [(-> & -> & ->)|[Hne Hk0]].
    + rewrite decide_True by done. by rewrite (Hcalls _ _ _ Hi).
    + rewrite decide_False.
      * rewrite app_nil_r. by apply (Hcalls k).
      * intros Heq. by apply (distinct_thread_ids w i k t p tk pk).
  - intros c Hc. cbn in Hc. apply elem_of_app in Hc as [Hc|Hc].
    + destruct (Howner _ Hc) as (k & tk & pk & Hk & Hid).
      destruct (thread_kept _ i t p p' k tk pk Hi Hk) as [pk' Hk'].
      by exists k, tk, pk'.
    + apply list_elem_of_singleton in Hc. subst c. cbn.
      exists i, t, p'. split; [|done].
      apply list_lookup_insert_eq. by eapply lookup_lt_Some.
  - intros k tk job Hk Hget. cbn in Hk, Hget.
    destruct (thread_before _ _ _ _ _ _ _ _ Hi Hk) as [(-> & -> & Hp')|[Hne Hk0]].
    + destruct (inv_threads _ Hinv _ _ _ Hi) as (job0 & Hjob0 & _).
      rewrite (update_known _ _ _ _ Hjob0) in Hget. simplify_eq.
      by apply Hfin.
    + rewrite update_other in Hget
        by (by eapply (distinct_thread_ids w i k t p tk Finished)).
      by apply (Hout k).
  - intros k tk pk Hk. cbn in Hk.
    destruct (thread_before _ _ _ _ _ _ _ _ Hi Hk) as [(-> & -> & ->)|[Hne Hk0]];
      by eapply Hfactor.
Qed.

Lemma bookkeeping_step w w' :
  invariant w -> bookkeeping w -> step w w' -> bookkeeping w'.
Proof.
  intros Hinv Hbk Hstep.
  destruct Hstep as [w uuid file factor denoise use_tfhub Hfresh|w i t Hi|w i t Hi].
  - assert (Hold : forall k tk pk, threads w !! k = Some (tk, pk) -> t_job_id tk ≠ uuid).
    { intros k tk pk Hk Heq.
      destruct (inv_threads _ Hinv _ _ _ Hk) as (job & Hjob & _).
      rewrite Heq in Hjob. congruence. }
    assert (Hfactor' :
      forall factor',
        create_upscale_job uuid file factor denoise use_tfhub w
        = (Ok (JobCreateResponse uuid JobStatus.queued),
           {| job_queue :=
                {| JobQueue._jobs :=
                     <[uuid := UpscaleJob.new uuid]> (JobQueue._jobs (job_queue w)) |};
              threads := threads w ++
                [({| t_job_id := uuid; t_data := file; t_factor := factor';
                     t_denoise := denoise; t_use_tfhub := use_tfhub |}, Spawned)];
              update_calls := update_calls w |}) ->
        if use_tfhub then factor' = 4 else factor_not_in_2_4_8 factor' = false).
    { intros factor'. unfold create_upscale_job, lift, job_queue_create,
        job_queue_get, Thread_start, mbind, M_bind, mret, M_ret.
      destruct use_tfhub; [destruct TFHUB_AVAILABLE|
                           destruct (factor_not_in_2_4_8 factor) eqn:Hf];
        cbn; try discriminate; intros Heq; injection Heq as _ Hl.
      - apply app_inv_head in Hl. by injection Hl as <-.
      - apply app_inv_head in Hl. by injection Hl as <-. }
    destruct (create_upscale_job_cases uuid file factor denoise use_tfhub w)
      as [[detail Hrej]|[factor' Hacc]].
    { by rewrite Hrej. }
    specialize (Hfactor' factor' Hacc). rewrite Hacc. cbn.
    destruct Hbk as [Hthread Hcalls Howner Hout Hfactor].
    split; cbn.
    + intros job_id job. unfold JobQueue.get. cbn.
      destruct (decide (job_id = uuid)) as [->|Hne].
      * intros _. eexists (length (threads w)), _, Spawned.
        split; [rewrite lookup_app_r by done; by rewrite Nat.sub_diag|done].
      * rewrite lookup_insert_ne by done. intros Hget.
        destruct (Hthread _ _ Hget) as (k & tk & pk & Hk & Hid).
        exists k, tk, pk. split; [|done]. by apply lookup_app_l_Some.
    + intros k tk pk Hk. apply lookup_app_Some in Hk as [Hk|[_ Hk]].
      * by apply (Hcalls k).
      * apply list_lookup_singleton_Some in Hk as [_ Hk]. simplify_eq. cbn.
        unfold calls_for. cbn. rewrite filter_none; [done|].
        intros c Hc Hid. destruct (Howner _ Hc) as (j & tj & pj & Hj & Hidj).
        apply (Hold j tj pj Hj). congruence.
    + intros c Hc. destruct (Howner _ Hc) as (k & tk & pk & Hk & Hid).
      exists k, tk, pk. split; [|done]. by apply lookup_app_l_Some.
    + intros k tk job Hk. apply lookup_app_Some in Hk as [Hk|[_ Hk]].
      * unfold JobQueue.get. cbn.
        rewrite lookup_insert_ne by (intros Heq; by apply (Hold k tk Finished Hk)).
        by apply (Hout k).
      * apply list_lookup_singleton_Some in Hk as [_ Hk]. discriminate.
    + intros k tk pk Hk. apply lookup_app_Some in Hk as [Hk|[_ Hk]].
      * by eapply Hfactor.
      * apply list_lookup_singleton_Some in Hk as [_ Hk]. by simplify_eq.
  - eapply bookkeeping_thread_update; try done.
  - eapply bookkeeping_thread_update; try done.
    intros _ job Hjob. unfold kwargs_terminal.
    destruct (run_pipeline _ _ _ _) as [[buf ct]|exc]; by destruct job.
Qed.

Lemma bookkeeping_init : bookkeeping World0.
Proof.
  split; cbn.
  - intros job_id job. unfold JobQueue.get. cbn. by rewrite lookup_empty.
  - intros i t p Hi. by rewrite lookup_nil in Hi.
  - intros c Hc. by apply not_elem_of_nil in Hc.
  - intros i t job Hi. by rewrite lookup_nil in Hi.
  - intros i t p Hi. by rewrite lookup_nil in Hi.
Qed.

Lemma bookkeeping_reachable w : reachable w -> bookkeeping w.
Proof.
  induction 1 as [|w w' Hreach IH Hstep]; [apply bookkeeping_init|].
  eapply bookkeeping_step; [|done..]. by apply invariant_reachable.
Qed.

End bookkeeping_steps.

Section futures.
Context `{TensorFlow}.

Lemma step_job_future w w' job_id job :
  invariant w -> step w w' ->
  JobQueue.get job_id (job_queue w) = Some job ->
  exists job', JobQueue.get job_id (job_queue w') = Some job' /\
    UpscaleJob.id job' = UpscaleJob.id job /\
    (status_rank (UpscaleJob.status job) <= status_rank (UpscaleJob.status job'))%nat /\
    (terminal (UpscaleJob.status job) = true -> job' = job).
Proof.
  intros Hinv Hstep Hget.
  destruct Hstep as [w uuid file factor denoise use_tfhub Hfresh|w i t Hi|w i t Hi].
  - destruct (create_upscale_job_cases uuid file factor denoise use_tfhub w)
      as [[detail ->]|[factor' ->]]; cbn; [by exists job|].
    exists job. split; [|done]. unfold JobQueue.get. cbn.
    rewrite lookup_insert_ne; [done|]. intros <-. congruence.
  - cbn. destruct (decide (job_id = t_job_id t)) as [->|Hne].
    + destruct (inv_threads _ Hinv _ _ _ Hi) as (job0 & Hjob0 & Hphase).
      simplify_eq. cbn in Hphase. eexists. split; [by apply update_known|].
      destruct job; cbn in *. subst. cbn. split; [done|]. split; [lia|done].
    + exists job. split; [|done]. by rewrite update_other.
  - cbn. destruct (decide (job_id = t_job_id t)) as [->|Hne].
    + destruct (inv_threads _ Hinv _ _ _ Hi) as (job0 & Hjob0 & Hphase).
      simplify_eq. cbn in Hphase. eexists. split; [by apply update_known|].
      unfold kwargs_terminal.
      destruct (run_pipeline _ _ _ _) as [[buf ct]|exc];
        destruct job; cbn in *; subst; cbn; (split; [done|]); split; (lia || done).
    + exists job. split; [|done]. by rewrite update_other.
Qed.



Lemma factor_in_2_4_8 (factor : Z) :
  factor_not_in_2_4_8 factor = false <-> factor = 2 \/ factor = 4 \/ factor = 8.
Proof. unfold factor_not_in_2_4_8. lia. Qed.



(** X9.  A runner thread is only ever started with a factor that passed
    the checks of [POST /job]: 4 for the model backend, and 2, 4 or 8 for
    the filter backend; and the job it was started for is in the
    registry. *)
Theorem thread_factor_is_legal (w : World) (i : nat) (t : Thread) (p : Phase) :
  reachable w ->
  threads w !! i = Some (t, p) ->
  (t_use_tfhub t = true -> t_factor t = 4) /\
  (t_factor t = 2 \/ t_factor t = 4 \/ t_factor t = 8) /\
  is_Some (JobQueue.get (t_job_id t) (job_queue w)).
Proof.
  intros Hreach Hi.
  pose proof (bk_factor _ (bookkeeping_reachable _ Hreach) _ _ _ Hi) as Hf.
  destruct (inv_threads _ (invariant_reachable _ Hreach) _ _ _ Hi) as (job & Hjob & _).
  destruct (t_use_tfhub t).
  - split; [done|]. split; [lia|by eexists].
  - split; [done|]. split; [by apply factor_in_2_4_8|by eexists].
Qed.

End futures.





Lemma thread_factor_is_legal_witness :
  (t_use_tfhub Scenario.thread1 = true -> t_factor Scenario.thread1 = 4) /\
  (t_factor Scenario.thread1 = 2 \/ t_factor Scenario.thread1 = 4 \/
   t_factor Scenario.thread1 = 8) /\
  is_Some (JobQueue.get (t_job_id Scenario.thread1) (job_queue Scenario.finished)).
Proof.
  apply (thread_factor_is_legal (H0 := Reference.no_tensorflow)
           Scenario.finished 0%nat Scenario.thread1 Finished
           ScenarioFacts.reachable_finished).
  by vm_compute.
Defined.

(** ** The request surface *)

Lemma ascii_lower_upper (c : ascii) : ascii_lower (ascii_upper c) = ascii_lower c.
Proof. by destruct c as [[] [] [] [] [] [] [] []]. Qed.

Lemma lower_upper (s : string) : lower (upper s) = lower s.
Proof.
  induction s as [|c s IH]; [done|]. cbn. by rewrite ascii_lower_upper, IH.
Qed.

Lemma or_default_nonempty (x : option string) (d : string) :
  d ≠ "" -> or_default x d ≠ "".
Proof.
  intros Hd. unfold or_default. destruct x as [s|]; [|done]. by case_decide.
Qed.

Section surface.
Context `{TensorFlow}.

(** X10.  When the runner's pipeline returns, the upload was decodable, the
    selected backend returned an image, and the bytes are that image
    encoded in the upload's detected format in upper case, PNG when none
    was detected; the content type is [image/] followed by that format in
    lower case, so [image/png] when none was detected. *)
Theorem run_pipeline_content_type
    (data : bytes) (factor : Z) (denoise use_tfhub : bool)
    (buf : bytes) (content_type : string) :
  run_pipeline data factor denoise use_tfhub = Ok (buf, content_type) ->
  exists img upscaled,
    Image_open data = Ok img /\
    run_backend img factor denoise use_tfhub = Ok upscaled /\
    Image_save upscaled (upper (or_default (format img) "PNG")) = Ok buf /\
    content_type = ("image/" ++ lower (or_default (format img) "PNG"))%string /\
    (format img = None -> content_type = "image/png").
Proof.
  change (run_pipeline data factor denoise use_tfhub) with
    (img ← Image_open data;
     upscaled ← run_backend img factor denoise use_tfhub;
     buf ← Image_save upscaled (out_format_of img);
     Ok (buf, "image/" ++ lower (out_format_of img))%string).
  destruct (Image_open data) as [img|] eqn:Hopen; cbn; [|discriminate].
  destruct (run_backend img factor denoise use_tfhub) as [upscaled|] eqn:Hb;
    cbn; [|discriminate].
  destruct (Image_save upscaled (out_format_of img)) as [buf'|] eqn:Hsave;
    cbn; [|discriminate].
  intros [= <- <-]. exists img, upscaled. unfold out_format_of in *.
  split; [done|]. split; [done|]. split; [done|]. rewrite lower_upper.
  split; [done|]. by intros ->.
Qed.


(** X12.  What one run of the runner does to the registry.  A job under
    the given id ends up done with progress 1.0, the encoded image and its
    content type when the pipeline returns, and in error with [str(exc)]
    and progress 0.05 when it raises; its id is kept, and the fields the
    terminal update does not name (the error of a done job, the result of
    a failed one) keep the values they had.  No other job is touched, and
    when the registry holds no job under the id it is left as it was. *)
Theorem process_job_effect
    (job_id : string) (data : bytes) (factor : Z) (denoise use_tfhub : bool)
    (w : World) :
  let w' := (_process_job job_id data factor denoise use_tfhub w).2 in
  (JobQueue.get job_id (job_queue w) = None -> job_queue w' = job_queue w) /\
  (forall other, other ≠ job_id ->
     JobQueue.get other (job_queue w') = JobQueue.get other (job_queue w)) /\
  (forall job, JobQueue.get job_id (job_queue w) = Some job ->
     exists job', JobQueue.get job_id (job_queue w') = Some job' /\
       UpscaleJob.id job' = UpscaleJob.id job /\
       match run_pipeline data factor denoise use_tfhub with
       | Ok (buf, content_type) =>
           UpscaleJob.status job' = JobStatus.done /\
           UpscaleJob.progress job' = 1.0%float /\
           UpscaleJob.result_bytes job' = Some buf /\
           UpscaleJob.content_type job' = Some content_type /\
           UpscaleJob.error job' = UpscaleJob.error job
       | Raise exc =>
           UpscaleJob.status job' = JobStatus.error /\
           UpscaleJob.progress job' = 0.05%float /\
           UpscaleJob.error job' = Some (str exc) /\
           UpscaleJob.result_bytes job' = UpscaleJob.result_bytes job /\
           UpscaleJob.content_type job' = UpscaleJob.content_type job
       end).
Proof.
  cbn zeta. rewrite process_job_unfold. cbn [snd job_queue].
  split; [|split].
  - intros Hnone. rewrite (update_unknown _ _ kwargs_processing Hnone).
    by apply update_unknown.
  - intros other Hne. by rewrite !update_other.
  - intros job Hjob.
    pose proof (update_known _ _ kwargs_processing _ Hjob) as Hjob1.
    eexists. split; [by apply update_known|].
    unfold kwargs_terminal. cbn.
    destruct (run_pipeline data factor denoise use_tfhub) as [[buf ct]|exc];
      by destruct job.
Qed.

Context `{!PILSizes}.


End surface.

(** The pipeline of the scenario's thread. *)
Lemma run_pipeline_content_type_witness :
  exists img, Image_open (PIL := Reference.pil) (Reference.png 100 100) = Ok img /\
    "image/png" = ("image/" ++ lower (or_default (format img) "PNG"))%string.
Proof.
  destruct (run_pipeline_content_type (H0 := Reference.no_tensorflow)
              (Reference.png 100 100) 2 false false
              (Reference.png 200 200) "image/png")
    as (img & upscaled & Hopen & _ & _ & Hct & _); [by vm_compute|].
  exists img. split; [exact Hopen|exact Hct].
Defined.

(** The runner on the scenario's queued job. *)
Lemma process_job_effect_witness :
  exists job',
    JobQueue.get "job1"
      (job_queue (_process_job (H0 := Reference.no_tensorflow) "job1"
                    (Reference.png 100 100) 2 false false Scenario.submitted).2)
    = Some job' /\
    UpscaleJob.id job' = "job1".
Proof.
  destruct (process_job_effect (H0 := Reference.no_tensorflow) "job1"
              (Reference.png 100 100) 2 false false Scenario.submitted)
    as (_ & _ & Hjob).
  destruct (Hjob Scenario.job_queued ScenarioFacts.get_submitted)
    as (job' & Hget & Hid & _).
  exists job'. split; [exact Hget|exact Hid].
Defined.


(** ** The clamp, further *)


Lemma clamp_new_size_5000_4000 :
  clamp_new_size 5000 4000 max_pixels = (4579, 3663).
Proof. rewrite clamp_new_size_Z_eq; [by vm_compute|lia|lia|by vm_compute]. Qed.




Section clamp_twice.
Context `{PILSizes}.

(** X16.  An image that came out of the clamp is within the ceiling, and
    clamping it again returns it as it is. *)
Theorem clamp_large_image_idempotent (img img' : Image) (m : Z) :
  0 <= m -> 0 <= width img -> 0 <= height img ->
  clamp_large_image img m = Ok img' ->
  width img' * height img' <= m /\
  clamp_large_image img' m = Ok img'.
Proof.
  intros Hm Hw Hh. unfold clamp_large_image at 1.
  destruct (width img * height img >? m) eqn:Hover.
  - intros Hr. apply resize_size in Hr. unfold size in Hr.
    rewrite Z.gtb_ltb in Hover. apply Z.ltb_lt in Hover.
    assert (0 < width img /\ 0 < height img) as [Hw0 Hh0] by nia.
    destruct (clamp_new_size_bounds _ _ _ _ _ Hw0 Hh0 Hm Hover (eq_sym Hr))
      as (_ & _ & Hle & _).
    split; [done|]. unfold clamp_large_image.
    replace (width img' * height img' >? m) with false; [done|].
    symmetry. rewrite Z.gtb_ltb. by apply Z.ltb_ge.
  - intros [= <-]. rewrite Z.gtb_ltb in Hover. apply Z.ltb_ge in Hover.
    split; [done|]. unfold clamp_large_image.
    replace (width img * height img >? m) with false; [done|].
    symmetry. rewrite Z.gtb_ltb. by apply Z.ltb_ge.
Qed.

Context `{!PILModes}.

(** X17.  [ensure_rgb] returns an image in mode RGB or RGBA of the size of
    its argument: the argument itself when it is in one of these modes
    already, so that a second call changes nothing, and its conversion to
    RGB otherwise. *)
Theorem ensure_rgb_mode (img img' : Image) :
  ensure_rgb img = Ok img' ->
  (mode img' = "RGB" \/ mode img' = "RGBA") /\
  size img' = size img /\
  ensure_rgb img' = Ok img' /\
  (mode img = "RGB" \/ mode img = "RGBA" -> img' = img) /\
  (mode img ≠ "RGB" -> mode img ≠ "RGBA" -> Image_convert img "RGB" = Ok img').
Proof.
  assert (Hnot : forall m, mode_not_rgb m = false <-> m = "RGB" \/ m = "RGBA").
  { intros m. unfold mode_not_rgb. rewrite negb_false_iff, orb_true_iff.
    by rewrite !bool_decide_eq_true. }
  unfold ensure_rgb at 1. destruct (mode_not_rgb (mode img)) eqn:Hm.
  - intros Hc. pose proof (convert_mode _ _ _ Hc) as Hmode.
    pose proof (convert_size _ _ _ Hc) as Hsize.
    split; [by left|]. split; [done|]. split.
    { unfold ensure_rgb. rewrite Hmode. done. }
    split; [|done]. intros Hrgb. apply Hnot in Hrgb. congruence.
  - intros [= <-]. pose proof (proj1 (Hnot _) Hm) as Hrgb.
    split; [done|]. split; [done|]. split.
    { unfold ensure_rgb. by rewrite Hm. }
    split; [done|]. intros Hn1 Hn2. by destruct Hrgb.
Qed.

End clamp_twice.

Lemma clamp_large_image_idempotent_witness :
  let img' := {| Reference.r_width := 4579; Reference.r_height := 3663;
                 Reference.r_mode := "RGB"; Reference.r_format := None |} in
  width (PIL := Reference.pil) img' * height (PIL := Reference.pil) img' <= max_pixels /\
  clamp_large_image (H := Reference.pil) img' max_pixels = Ok img'.
Proof.
  apply (clamp_large_image_idempotent (H := Reference.pil) img_5000_4000);
    [by vm_compute|by vm_compute|by vm_compute|].
  unfold clamp_large_image.
  replace (width (PIL := Reference.pil) img_5000_4000
           * height (PIL := Reference.pil) img_5000_4000 >? max_pixels)
    with true by (by vm_compute).
  cbn [width height Reference.pil img_5000_4000 Reference.r_width Reference.r_height].
  rewrite clamp_new_size_5000_4000. by vm_compute.
Defined.

Lemma ensure_rgb_mode_witness :
  let img' := {| Reference.r_width := 100; Reference.r_height := 100;
                 Reference.r_mode := "RGB"; Reference.r_format := None |} in
  (mode (PIL := Reference.pil) img' = "RGB" \/ mode (PIL := Reference.pil) img' = "RGBA") /\
  ensure_rgb (H := Reference.pil) img' = Ok img'.
Proof.
  destruct (ensure_rgb_mode (H := Reference.pil) img_gray
              {| Reference.r_width := 100; Reference.r_height := 100;
                 Reference.r_mode := "RGB"; Reference.r_format := None |})
    as (Hmode & _ & Hagain & _); [by vm_compute|].
  split; [exact Hmode|exact Hagain].
Defined.

(** ** The progress channel *)

Lemma lookup_register job_id ws (conns : Connections) j :
  register job_id ws conns !! j =
  if decide (j = job_id) then Some (default ∅ (conns !! job_id) ∪ {[ws]})
  else conns !! j.
Proof.
  unfold register. destruct (conns !! job_id) as [s|] eqn:Hs.
  - cbv beta iota zeta. rewrite Hs. cbn [default]. case_decide as Hj.
    + subst. by rewrite lookup_insert_eq.
    + by rewrite lookup_insert_ne.
  - cbv beta iota zeta. rewrite lookup_insert_eq. cbn [default].
    case_decide as Hj.
    + subst. by rewrite lookup_insert_eq.
    + by rewrite !lookup_insert_ne.
Qed.

Lemma lookup_cleanup job_id ws (conns : Connections) j :
  cleanup job_id ws conns !! j =
  if decide (j = job_id) then
    match conns !! job_id with
    | Some s => if decide (s ∖ {[ws]} = ∅) then None else Some (s ∖ {[ws]})
    | None => None
    end
  else conns !! j.
Proof.
  unfold cleanup. destruct (conns !! job_id) as [s|] eqn:Hs.
  - destruct (decide (s ∖ {[ws]} = ∅)) as [He|He]; case_decide as Hj; subst.
    + by rewrite lookup_delete_eq.
    + by rewrite lookup_delete_ne.
    + by rewrite lookup_insert_eq.
    + by rewrite lookup_insert_ne.
  - case_decide; by subst.
Qed.

(** X18.  Registering a socket for a job adds it to the job's sockets and
    changes nothing else; the clean-up removes it, keeps the job's other
    sockets, forgets the job when no socket is left, and touches no other
    job.  Neither leaves a job with an empty set of sockets, and the
    clean-up undoes the registration of a socket that was not registered
    before. *)
Theorem register_cleanup (conns : Connections) (job_id : string) (ws : WebSocket) :
  (exists sockets, register job_id ws conns !! job_id = Some sockets /\
     (ws ∈ sockets) /\
     (forall ws', ws' ∈ default ∅ (conns !! job_id) -> ws' ∈ sockets)) /\
  (forall sockets, cleanup job_id ws conns !! job_id = Some sockets ->
     (ws ∉ sockets) /\ sockets ≠ ∅) /\
  (forall sockets ws', conns !! job_id = Some sockets -> ws' ∈ sockets -> ws' ≠ ws ->
     exists sockets', cleanup job_id ws conns !! job_id = Some sockets' /\
                      ws' ∈ sockets') /\
  (forall other, other ≠ job_id ->
     register job_id ws conns !! other = conns !! other /\
     cleanup job_id ws conns !! other = conns !! other) /\
  (no_empty_sets conns ->
     no_empty_sets (register job_id ws conns) /\
     no_empty_sets (cleanup job_id ws conns)) /\
  (no_empty_sets conns -> ws ∉ default ∅ (conns !! job_id) ->
     cleanup job_id ws (register job_id ws conns) = conns).
Proof.
  split; [|split; [|split; [|split; [|split]]]].
  - eexists. rewrite lookup_register, decide_True by done.
    split; [done|]. split; set_solver.
  - intros sockets. rewrite lookup_cleanup, decide_True by done.
    destruct (conns !! job_id) as [s|]; [|discriminate].
    case_decide as He; [discriminate|]. intros [= <-]. split; [set_solver|done].
  - intros sockets ws' Hs Hin Hne. rewrite lookup_cleanup, decide_True by done.
    rewrite Hs. case_decide as He; [set_solver|].
    eexists. split; [done|]. set_solver.
  - intros other Hne. rewrite lookup_register, lookup_cleanup.
    by rewrite !decide_False by done.
  - intros Hinv. split; intros j s.
    + rewrite lookup_register. case_decide; [|by apply Hinv].
      intros [= <-]. set_solver.
    + rewrite lookup_cleanup. case_decide; [|by apply Hinv].
      destruct (conns !! job_id) as [s0|]; [|discriminate].
      case_decide; [discriminate|]. by intros [= <-].
  - intros Hinv Hfresh. apply map_eq. intros j.
    rewrite lookup_cleanup. case_decide as Hj; [subst j|].
    + rewrite lookup_register, decide_True by done.
      destruct (conns !! job_id) as [s|] eqn:Hs; cbn in *.
      * assert ((s ∪ {[ws]}) ∖ {[ws]} = s) as -> by set_solver.
        rewrite decide_False; [done|]. by eapply Hinv.
      * rewrite decide_True; [done|]. set_solver.
    + by rewrite lookup_register, decide_False.
Qed.

Lemma register_cleanup_witness :
  cleanup "job1" 7%nat (register "job1" 7%nat ({[ "job1" := {[ 3%nat ]} ]} : Connections))
  = {[ "job1" := {[ 3%nat ]} ]}.
Proof.
  apply (register_cleanup ({[ "job1" := {[ 3%nat ]} ]} : Connections) "job1" 7%nat).
  - intros j s Hs. apply lookup_singleton_Some in Hs as [_ <-].
    apply (non_empty_singleton_L (C := gset WebSocket)).
  - rewrite lookup_singleton_eq. cbn. apply not_elem_of_singleton. lia.
Defined.

(** X19.  The registration of one socket and the clean-up of another can
    come in either order: a session that ends while another one starts
    does not disturb it. *)
Theorem cleanup_register_commute
    (conns : Connections) (job1 job2 : string) (ws1 ws2 : WebSocket) :
  ws1 ≠ ws2 ->
  cleanup job1 ws1 (register job2 ws2 conns)
  = register job2 ws2 (cleanup job1 ws1 conns).
Proof.
  intros Hne. apply map_eq. intros j.
  rewrite lookup_cleanup, lookup_register.
  rewrite ?lookup_register, ?lookup_cleanup.
  destruct (decide (j = job1)) as [Hj1|Hj1], (decide (j = job2)) as [Hj2|Hj2];
    subst; rewrite ?decide_True by done; rewrite ?decide_False by done; try done.
  destruct (conns !! job2) as [s|]; cbn [default];
    repeat case_decide; try (f_equal; set_solver); set_solver.
Qed.

Lemma cleanup_register_commute_witness :
  cleanup "job1" 3%nat (register "job1" 7%nat ({[ "job1" := {[ 3%nat ]} ]} : Connections))
  = register "job1" 7%nat (cleanup "job1" 3%nat {[ "job1" := {[ 3%nat ]} ]}).
Proof. apply cleanup_register_commute. lia. Defined.


Lemma poll_loop_lookup (job_id : string) (ticks : list (JobQueue.t * bool))
    (i : nat) (msg : Message) :
  (poll_loop job_id ticks).1 !! i = Some msg ->
  (exists q, ticks !! i = Some (q, true) /\ msg = message_at job_id q) /\
  ((S i < length (poll_loop job_id ticks).1)%nat -> is_final msg = false).
Proof.
  revert i. induction ticks as [|[q connected] ticks IH]; intros i; [done|].
  cbn [poll_loop]. unfold message_at in *.
  destruct (JobQueue.get job_id q) as [job|] eqn:Hget, connected; try done.
  - destruct (terminal (UpscaleJob.status job)) eqn:Hterm.
    + destruct i as [|i]; [|done]. cbn. intros [= <-].
      split; [|lia]. exists q. by rewrite Hget.
    + destruct (poll_loop job_id ticks) as [msgs e]. cbn [fst snd] in *.
      destruct i as [|i]; cbn.
      * intros [= <-]. split; [|done]. exists q. by rewrite Hget.
      * intros Hi. destruct (IH i Hi) as [Hat Hmid]. split; [done|].
        intros Hlt. apply Hmid. lia.
  - destruct i as [|i]; [|done]. cbn. intros [= <-].
    split; [|lia]. exists q. by rewrite Hget.
Qed.

Section sessions.
Context `{TensorFlow}.

Lemma steps_job_future w w' job_id job :
  invariant w -> rtc step w w' ->
  JobQueue.get job_id (job_queue w) = Some job ->
  exists job', JobQueue.get job_id (job_queue w') = Some job' /\
    UpscaleJob.id job' = UpscaleJob.id job /\
    (status_rank (UpscaleJob.status job) <= status_rank (UpscaleJob.status job'))%nat.
Proof.
  intros Hinv Hsteps. revert job.
  induction Hsteps as [w|w w1 w' Hstep Hsteps IH]; intros job Hget.
  - by exists job.
  - destruct (step_job_future _ _ _ _ Hinv Hstep Hget)
      as (job1 & Hget1 & Hid1 & Hrank1 & _).
    destruct (IH (invariant_step _ _ Hinv Hstep) job1 Hget1)
      as (job' & Hget' & Hid' & Hrank').
    exists job'. split; [done|]. split; [congruence|lia].
Qed.

Lemma run_of_lookup (ws : list World) (i j : nat) (wi wj : World) :
  run_of ws -> (i <= j)%nat -> ws !! i = Some wi -> ws !! j = Some wj ->
  reachable wi /\ rtc step wi wj.
Proof.
  intros Hrun. revert i j wi wj.
  induction Hrun as [|w Hw|w w' ws Hw Hsteps Hrun IH]; intros i j wi wj Hij Hi Hj.
  - done.
  - apply list_lookup_singleton_Some in Hi as [-> ->].
    apply list_lookup_singleton_Some in Hj as [-> ->]. done.
  - destruct i as [|i], j as [|j]; cbn in Hi, Hj; try lia.
    + by simplify_eq.
    + simplify_eq. split; [done|].
      destruct (IH 0%nat j w' wj) as [_ Hrest]; [lia|done|done|].
      by etrans.
    + apply (IH i j); [lia|done|done].
Qed.

(** X21.  What a client sees of a job while the service runs.  Every
    status message names the job that was asked for; a message that is not
    the last reports a job that is queued or processing; once a message
    has reported the job, every later message reports it too, with a
    status at least as far along; and [Job not found] is only ever the
    single, first message. *)
Theorem session_reports_progress (job_id : string) (run : list (World * bool))
    (i j : nat) (mi mj : Message) :
  run_of run.*1 ->
  (i <= j)%nat ->
  (poll_loop job_id (ticks_of run)).1 !! i = Some mi ->
  (poll_loop job_id (ticks_of run)).1 !! j = Some mj ->
  match mi with
  | StatusData id s _ _ =>
      id = job_id /\
      ((i < j)%nat -> terminal s = false) /\
      exists s' p' e', mj = StatusData job_id s' p' e' /\
        (status_rank s <= status_rank s')%nat
  | JobNotFound => i = 0%nat /\ j = 0%nat
  end.
Proof.
  intros Hrun Hij Hi Hj.
  pose proof (lookup_lt_Some _ _ _ Hj) as Hlen.
  destruct (poll_loop_lookup _ _ _ _ Hi) as [(qi & Hti & ->) Hfi].
  destruct (poll_loop_lookup _ _ _ _ Hj) as [(qj & Htj & ->) _].
  unfold ticks_of in Hti, Htj. rewrite list_lookup_fmap in Hti, Htj.
  destruct (run !! i) as [[wi ci]|] eqn:Hri; [|done].
  destruct (run !! j) as [[wj cj]|] eqn:Hrj; [|done].
  cbn in Hti, Htj. simplify_eq.
  destruct (run_of_lookup run.*1 i j wi wj Hrun Hij) as [Hreach Hsteps].
  { by rewrite list_lookup_fmap, Hri. }
  { by rewrite list_lookup_fmap, Hrj. }
  pose proof (invariant_reachable _ Hreach) as Hinv.
  unfold message_at in *.
  destruct (JobQueue.get job_id (job_queue wi)) as [job|] eqn:Hget.
  - destruct (inv_jobs _ Hinv _ _ Hget) as [Hid _].
    destruct (steps_job_future _ _ _ _ Hinv Hsteps Hget)
      as (job' & Hget' & Hid' & Hrank).
    rewrite Hget'. split; [done|]. split.
    + intros Hlt. apply Hfi. lia.
    + eexists _, _, _. split; [|exact Hrank]. f_equal. congruence.
  - assert (Hlast : forall k msg,
              (poll_loop job_id (ticks_of run)).1 !! k = Some msg ->
              (S k < length (poll_loop job_id (ticks_of run)).1)%nat ->
              is_final msg = false).
    { intros k msg Hk. by destruct (poll_loop_lookup _ _ _ _ Hk). }
    destruct (decide (i = j)) as [->|Hne]; cycle 1.
    { assert (is_final JobNotFound = false); [|done]. apply Hfi. lia. }
    destruct j as [|j]; [done|].
    destruct (lookup_lt_is_Some_2 (poll_loop job_id (ticks_of run)).1 j)
      as [m0 Hm0]; [lia|].
    destruct (poll_loop_lookup _ _ _ _ Hm0) as [(q0 & Ht0 & ->) Hf0].
    unfold ticks_of in Ht0. rewrite list_lookup_fmap in Ht0.
    destruct (run !! j) as [[w0 c0]|] eqn:Hr0; [|done].
    cbn in Ht0. simplify_eq.
    destruct (run_of_lookup run.*1 j (S j) w0 wi Hrun) as [Hreach0 Hsteps0];
      [lia|by rewrite list_lookup_fmap, Hr0|by rewrite list_lookup_fmap, Hri|].
    unfold message_at in Hf0.
    destruct (JobQueue.get job_id (job_queue w0)) as [job0|] eqn:Hget0.
    + destruct (steps_job_future _ _ _ _ (invariant_reachable _ Hreach0)
                  Hsteps0 Hget0) as (job' & Hget' & _). congruence.
    + assert (is_final JobNotFound = false); [|done]. apply Hf0. lia.
Qed.

End sessions.

Lemma session_reports_progress_witness :
  "job1" = "job1" /\
  ((0 < 2)%nat -> terminal JobStatus.queued = false) /\
  exists s' p' e',
    StatusData "job1" JobStatus.done 1.0 None = StatusData "job1" s' p' e' /\
    (status_rank JobStatus.queued <= status_rank s')%nat.
Proof.
  apply (session_reports_progress (H0 := Reference.no_tensorflow) "job1"
           [(Scenario.submitted, true); (Scenario.working, true);
            (Scenario.finished, true)]
           0%nat 2%nat
           (StatusData "job1" JobStatus.queued 0.0 None)
           (StatusData "job1" JobStatus.done 1.0 None)).
  - apply run_cons;
      [apply ScenarioFacts.reachable_submitted
      |apply rtc_once, ScenarioFacts.step_submitted_working|].
    apply run_cons;
      [apply ScenarioFacts.reachable_working
      |apply rtc_once, ScenarioFacts.step_working_finished|].
    apply run_one, ScenarioFacts.reachable_finished.
  - lia.
  - by vm_compute.
  - by vm_compute.
Defined.

(** X22.  A session never leaves its socket behind.  While it is polling
    the socket is among the job's; once the loop is left, whether after a
    final message or because the client was gone, it is not.  The other
    sockets of the job and the sockets of every other job are as they
    were, and no job is left with an empty set of sockets. *)
Theorem session_cleans_up (websocket : WebSocket) (job_id : string)
    (ticks : list (JobQueue.t * bool)) (conns : Connections) :
  let e := (websocket_job_progress websocket job_id ticks conns).1.2 in
  let conns' := (websocket_job_progress websocket job_id ticks conns).2 in
  (websocket ∈ default ∅ (conns' !! job_id) <-> e = Polling) /\
  (forall ws, ws ≠ websocket ->
     ws ∈ default ∅ (conns' !! job_id) <-> ws ∈ default ∅ (conns !! job_id)) /\
  (forall other, other ≠ job_id -> conns' !! other = conns !! other) /\
  (no_empty_sets conns -> no_empty_sets conns').
Proof.
  cbn zeta. unfold websocket_job_progress.
  destruct (poll_loop job_id ticks) as [msgs e]. cbn [fst snd].
  assert (Hreg : register job_id websocket conns !! job_id
                 = Some (default ∅ (conns !! job_id) ∪ {[websocket]})).
  { by rewrite lookup_register, decide_True. }
  assert (Hclean : forall ws,
            ws ∈ default ∅ (cleanup job_id websocket
                              (register job_id websocket conns) !! job_id)
            <-> ws ∈ default ∅ (conns !! job_id) /\ ws ≠ websocket).
  { intros ws. rewrite lookup_cleanup, decide_True, Hreg by done.
    case_decide as He; cbn [default]; set_solver. }
  assert (Hother : forall other, other ≠ job_id ->
            cleanup job_id websocket (register job_id websocket conns) !! other
            = conns !! other).
  { intros other Hne.
    by rewrite lookup_cleanup, decide_False, lookup_register, decide_False. }
  assert (Hkeep : no_empty_sets conns ->
            no_empty_sets (cleanup job_id websocket
                             (register job_id websocket conns))).
  { intros Hinv j s. rewrite lookup_cleanup. case_decide as Hj.
    - rewrite Hreg. case_decide; [discriminate|]. by intros [= <-].
    - rewrite lookup_register, decide_False by done. apply Hinv. }
  destruct e.
  - split; [rewrite Hclean; split; [by intros [_ ?]|done]|].
    split; [intros ws Hne; rewrite Hclean; tauto|]. by split.
  - split; [rewrite Hclean; split; [by intros [_ ?]|done]|].
    split; [intros ws Hne; rewrite Hclean; tauto|]. by split.
  - split; [rewrite Hreg; cbn [default]; set_solver|].
    split; [intros ws Hne; rewrite Hreg; cbn [default]; set_solver|].
    split.
    + intros other Hne. by rewrite lookup_register, decide_False.
    + intros Hinv j s. rewrite lookup_register. case_decide; [|by apply Hinv].
      intros [= <-]. set_solver.
Qed.

(** X23.  A broadcast reaches exactly the job's sockets that take the
    message and drops the others; the sockets of other jobs are untouched,
    and nothing changes when every socket takes the message.  Unlike the
    clean-up of a session, a broadcast keeps the job's entry even when no
    socket is left in it. *)
Theorem broadcast_drops_refusing_sockets (job_id : string)
    (accepts : WebSocket -> bool) (conns : Connections) :
  let sent := (broadcast_job_update job_id accepts conns).1 in
  let conns' := (broadcast_job_update job_id accepts conns).2 in
  (forall ws, ws ∈ sent <->
     ws ∈ default ∅ (conns !! job_id) /\ accepts ws = true) /\
  (forall ws, ws ∈ default ∅ (conns' !! job_id) <-> ws ∈ sent) /\
  (forall other, other ≠ job_id -> conns' !! other = conns !! other) /\
  (is_Some (conns' !! job_id) <-> is_Some (conns !! job_id)) /\
  ((forall ws, ws ∈ default ∅ (conns !! job_id) -> accepts ws = false) ->
   is_Some (conns !! job_id) -> conns' !! job_id = Some ∅) /\
  ((forall ws, ws ∈ default ∅ (conns !! job_id) -> accepts ws = true) ->
   conns' = conns).
Proof.
  cbn zeta. unfold broadcast_job_update.
  destruct (conns !! job_id) as [sockets|] eqn:Hs; cbv zeta; cbn [fst snd default Datatypes.id].
  - rewrite lookup_insert_eq. cbn [default Datatypes.id].
    split; [intros ws; by rewrite elem_of_filter, (comm and)|].
    split.
    { intros ws. rewrite elem_of_difference, !elem_of_filter.
      destruct (accepts ws); naive_solver. }
    split; [intros other Hne; by rewrite lookup_insert_ne|].
    split; [by split; eauto|].
    split.
    { intros Hall _. f_equal. apply set_eq. intros ws.
      rewrite elem_of_difference, elem_of_filter.
      split; [|set_solver]. intros [Hin Hno]. destruct Hno. eauto. }
    intros Hall. apply map_eq. intros j.
    destruct (decide (j = job_id)) as [->|Hne].
    + rewrite lookup_insert_eq, Hs. f_equal. apply set_eq. intros ws.
      rewrite elem_of_difference, elem_of_filter.
      split; [by intros [? _]|]. intros Hin. split; [done|].
      intros [Hno _]. rewrite (Hall ws Hin) in Hno. done.
    + by rewrite lookup_insert_ne.
  - rewrite Hs. cbn [default Datatypes.id].
    split; [set_solver|]. split; [done|]. split; [done|].
    split; [done|]. split; [by intros _ [? ?]|done].
Qed.

Section routes_agree.
Context `{TensorFlow}.

Lemma download_follows_pipeline (file : bytes) (factor : Z) (denoise : bool) :
  match run_pipeline file factor denoise false with
  | Ok (buf, content_type) =>
      upscale_and_download file factor denoise
      = Ok (StreamingResponse buf (Some content_type))
  | Raise _ => exists exc, upscale_and_download file factor denoise = Raise exc
  end.
Proof.
  unfold run_pipeline, upscale_and_download, open_or_400.
  destruct (Image_open file) as [img|exc]; cbn [mbind result_bind andb];
    [|by eexists].
  destruct (UpscaleService.upscale _) as [upscaled|exc];
    cbn [mbind result_bind]; [|by eexists].
  destruct (Image_save upscaled (out_format_of img)) as [buf|exc];
    cbn [mbind result_bind]; [done|by eexists].
Qed.


End routes_agree.

